(** * CSS selector builder and Rectangle of [src/05-objects-tasks.js]

    A shallow embedding of the JavaScript source: the builder object
    [MyCssSelectorBuilder] is a record of its two fields, its methods are
    functions from the state of [this] to either the mutated state or a
    thrown [Error]; the facade [cssSelectorBuilder] and the builders it
    hands out live in a store of objects addressed by reference, because
    [combine] is handed references that may alias. *)

From Stdlib Require Import String Ascii List Bool Arith Lia Sorted.
From Stdlib Require Import ZArith Floats.
Import ListNotations.
Open Scope list_scope.
Open Scope string_scope.

(** ** JavaScript strings *)

Module JsString.

(** The double quote character, U+0022. *)
Definition dquote : ascii := Ascii false true false false false true false false.

(** [String.prototype.includes]: [pat] occurs somewhere inside [s]. *)
Fixpoint includes (s pat : string) : bool :=
  String.prefix pat s ||
  match s with
  | EmptyString => false
  | String _ s' => includes s' pat
  end.

(** Truthiness of a string in a condition: every string but [''] is truthy. *)
Definition truthy (s : string) : bool :=
  match s with
  | EmptyString => false
  | String _ _ => true
  end.

(** Occurrence of one character, the single-character case of [includes]. *)
Fixpoint has_char (c : ascii) (s : string) : bool :=
  match s with
  | EmptyString => false
  | String a s' => Ascii.eqb c a || has_char c s'
  end.

(** First and last character tests used to follow ['::'] across a join. *)
Definition starts_with (c : ascii) (s : string) : bool :=
  match s with
  | EmptyString => false
  | String a _ => Ascii.eqb c a
  end.

Fixpoint ends_with (c : ascii) (s : string) : bool :=
  match s with
  | EmptyString => false
  | String a EmptyString => Ascii.eqb c a
  | String _ s' => ends_with c s'
  end.

End JsString.
Import JsString.

(** ** Completions: a call returns normally or throws [new Error(msg)] *)

Inductive result (A : Type) : Type :=
| Ok (a : A)
| Throw (msg : string).
Arguments Ok {A} a.
Arguments Throw {A} msg.

Definition bind {A B : Type} (r : result A) (f : A -> result B) : result B :=
  match r with
  | Ok a => f a
  | Throw m => Throw m
  end.

(** The two messages the source assembles with [+=] before throwing. *)
Definition DuplicateSelectorError : string :=
  "Element, id and pseudo-element should" ++
  " not occur more then one time inside the selector".

Definition OrderError : string :=
  "Selector parts should be arranged in the following order: " ++
  "element, id, class, attribute, pseudo-class, pseudo-element".

(** ** MyCssSelectorBuilder *)

Record MyCssSelectorBuilder : Type := mkBuilder {
  str : string;
  hasElement : bool
}.

(** State of the object right after [new MyCssSelectorBuilder()]. *)
Definition new_MyCssSelectorBuilder : MyCssSelectorBuilder :=
  {| str := ""; hasElement := false |}.

Definition set_str (this : MyCssSelectorBuilder) (s : string) : MyCssSelectorBuilder :=
  {| str := s; hasElement := hasElement this |}.

Definition stringify (this : MyCssSelectorBuilder) : string * MyCssSelectorBuilder :=
  let result := str this in
  (result, set_str this "").

Definition element (value : string) (this : MyCssSelectorBuilder)
  : result MyCssSelectorBuilder :=
  if hasElement this then Throw DuplicateSelectorError
  else if truthy (str this) then Throw OrderError
  else Ok {| str := str this ++ value; hasElement := true |}.

Definition id (value : string) (this : MyCssSelectorBuilder)
  : result MyCssSelectorBuilder :=
  if includes (str this) "#" then Throw DuplicateSelectorError
  else if includes (str this) "." then Throw OrderError
  else if includes (str this) "[" then Throw OrderError
  else if includes (str this) ":" then Throw OrderError
  else if includes (str this) "::" then Throw OrderError
  else Ok (set_str this (str this ++ "#" ++ value)).

Definition classfn (value : string) (this : MyCssSelectorBuilder)
  : result MyCssSelectorBuilder :=
  if includes (str this) "[" then Throw OrderError
  else if includes (str this) ":" then Throw OrderError
  else if includes (str this) "::" then Throw OrderError
  else Ok (set_str this (str this ++ "." ++ value)).

Definition attr (value : string) (this : MyCssSelectorBuilder)
  : result MyCssSelectorBuilder :=
  if includes (str this) ":" || includes (str this) "::" then Throw OrderError
  else Ok (set_str this (str this ++ "[" ++ value ++ "]")).

Definition pseudoClass (value : string) (this : MyCssSelectorBuilder)
  : result MyCssSelectorBuilder :=
  if includes (str this) "::" then Throw OrderError
  else Ok (set_str this (str this ++ ":" ++ value)).

Definition pseudoElement (value : string) (this : MyCssSelectorBuilder)
  : result MyCssSelectorBuilder :=
  if includes (str this) "::" then Throw DuplicateSelectorError
  else Ok (set_str this (str this ++ "::" ++ value)).

(** ** Chains of mutator calls *)

Inductive kind : Type :=
| KElement | KId | KClass | KAttr | KPseudoClass | KPseudoElement.

Definition kind_eq_dec (a b : kind) : {a = b} + {a <> b}.
Proof. decide equality. Defined.

(** The method of the builder that a call of kind [k] invokes. *)
Definition call (k : kind) : string -> MyCssSelectorBuilder -> result MyCssSelectorBuilder :=
  match k with
  | KElement => element
  | KId => id
  | KClass => classfn
  | KAttr => attr
  | KPseudoClass => pseudoClass
  | KPseudoElement => pseudoElement
  end.

(** [b.k1(v1).k2(v2)...]: each call is made on the object the previous one
    returned (always [this]); a throw aborts the rest of the chain. *)
Fixpoint chain (cs : list (kind * string)) (this : MyCssSelectorBuilder)
  : result MyCssSelectorBuilder :=
  match cs with
  | [] => Ok this
  | (k, v) :: rest => bind (call k v this) (chain rest)
  end.

Definition kinds (cs : list (kind * string)) : list kind := map fst cs.

(** The text a successful call of kind [k] with value [v] appends. *)
Definition token (c : kind * string) : string :=
  let (k, v) := c in
  match k with
  | KElement => v
  | KId => "#" ++ v
  | KClass => "." ++ v
  | KAttr => "[" ++ v ++ "]"
  | KPseudoClass => ":" ++ v
  | KPseudoElement => "::" ++ v
  end.

Definition tokens (cs : list (kind * string)) : string :=
  fold_right (fun c acc => token c ++ acc) "" cs.

(** ** The canonical sequence of kinds *)

Definition rank (k : kind) : nat :=
  match k with
  | KElement => 0
  | KId => 1
  | KClass => 2
  | KAttr => 3
  | KPseudoClass => 4
  | KPseudoElement => 5
  end.

(** Kinds that may occur at most once in a fragment. *)
Definition once (k : kind) : bool :=
  match k with
  | KElement | KId | KPseudoElement => true
  | KClass | KAttr | KPseudoClass => false
  end.

(** element, id, class(es), attribute(s), pseudo-class(es), pseudo-element:
    the kinds never step back in rank, and a kind limited to one occurrence
    is not repeated. *)
Definition canonical (ks : list kind) : Prop :=
  StronglySorted (fun a b => rank a <= rank b) ks /\
  forall k, once k = true -> count_occ kind_eq_dec ks k <= 1.

(** [k'] may come somewhere after [k] in a canonical sequence. *)
Definition follows (k k' : kind) : Prop :=
  rank k <= rank k' /\ (once k = true -> k <> k').

(** Values whose text cannot be mistaken for a marker by the guards of the
    calls that come later: the guards look for ['#'], ['.'], ['['], [':'] and
    ['::'] anywhere in the buffer, values included. *)
Definition clean (c : kind * string) : bool :=
  let (k, v) := c in
  match k with
  | KElement =>
      negb (includes v "#") && negb (includes v ".") &&
      negb (includes v "[") && negb (includes v ":")
  | KId | KClass => negb (includes v "[") && negb (includes v ":")
  | KAttr => negb (includes v ":")
  | KPseudoClass => negb (includes v ":") && truthy v
  | KPseudoElement => true
  end.

Definition is_pseudoClass (k : kind) : bool :=
  match k with
  | KPseudoClass => true
  | _ => false
  end.

(** What the value [v] of a call of kind [k] has to be like for the call
    that comes [next] to pass its guard, [more] telling whether a further
    call comes after that one. Before id, class and attr the value must be
    free of the characters the guard searches. Before pseudoClass and
    pseudoElement the token must be free of ['::'], and it must not end
    with [':'] when the next token, a pseudo-class, is itself followed by
    a call: the two colons would meet at the seam. *)
Definition fits (k : kind) (v : string) (next : kind) (more : bool) : bool :=
  match next with
  | KElement => true
  | KId =>
      negb (includes v "#") && negb (includes v ".") &&
      negb (includes v "[") && negb (includes v ":")
  | KClass => negb (includes v "[") && negb (includes v ":")
  | KAttr => negb (includes v ":")
  | KPseudoClass | KPseudoElement =>
      negb (includes (token (k, v)) "::") &&
      negb (is_pseudoClass next && more && ends_with ":" (token (k, v)))
  end.

(** Every value but the last fits the call that follows it. *)
Fixpoint fitting (cs : list (kind * string)) : bool :=
  match cs with
  | [] => true
  | (k, v) :: rest =>
      match rest with
      | [] => true
      | (k', _) :: rest' =>
          fits k v k' (match rest' with [] => false | _ :: _ => true end)
          && fitting rest
      end
  end.

(** ** Objects and references

    Builders are objects on the heap; [cssSelectorBuilder] is one more
    object, of which only the field [str] is state. *)

Inductive ref : Type :=
| Facade
| Builder (n : nat).

Record store : Type := mkStore {
  facade_str : string;
  cells : nat -> MyCssSelectorBuilder;
  next : nat
}.

Definition set_cell (s : store) (n : nat) (b : MyCssSelectorBuilder) : store :=
  {| facade_str := facade_str s;
     cells := fun m => if Nat.eqb m n then b else cells s m;
     next := next s |}.

Definition set_facade_str (s : store) (v : string) : store :=
  {| facade_str := v; cells := cells s; next := next s |}.

(** A computation runs on the store and completes normally or by a throw;
    the store survives either way. *)
Definition M (A : Type) : Type := store -> result A * store.

Definition ret {A : Type} (a : A) : M A := fun s => (Ok a, s).

Definition bindM {A B : Type} (m : M A) (f : A -> M B) : M B :=
  fun s =>
    match m s with
    | (Ok a, s') => f a s'
    | (Throw e, s') => (Throw e, s')
    end.

Notation "x <- m ;; k" := (bindM m (fun x => k))
  (at level 61, m at next level, right associativity).

(** [new MyCssSelectorBuilder()] *)
Definition new_builder : M nat :=
  fun s =>
    (Ok (next s),
     {| facade_str := facade_str s;
        cells := fun m => if Nat.eqb m (next s) then new_MyCssSelectorBuilder
                          else cells s m;
        next := S (next s) |}).

(** A mutator invoked on the builder at address [n]; it returns [this]. *)
Definition builder_method (k : kind) (value : string) (n : nat) : M ref :=
  fun s =>
    match call k value (cells s n) with
    | Ok b' => (Ok (Builder n), set_cell s n b')
    | Throw e => (Throw e, s)
    end.

(** [r.k(value)]: on the facade the method news a builder and delegates. *)
Definition method (k : kind) (value : string) (r : ref) : M ref :=
  match r with
  | Facade => n <- new_builder ;; builder_method k value n
  | Builder n => builder_method k value n
  end.

(** [r.stringify()], for a builder and for the facade. *)
Definition stringify_at (r : ref) : M string :=
  match r with
  | Facade => fun s => (Ok (facade_str s), set_facade_str s "")
  | Builder n =>
      fun s => let (result, b') := stringify (cells s n) in
               (Ok result, set_cell s n b')
  end.

(** [cssSelectorBuilder.combine(selector1, combinator, selector2)] *)
Definition combine (selector1 : ref) (combinator : string) (selector2 : ref) : M ref :=
  a <- stringify_at selector1 ;;
  b <- stringify_at selector2 ;;
  fun s =>
    (Ok Facade,
     set_facade_str s (facade_str s ++ a ++ " " ++ combinator ++ " " ++ b)).

(** [r.k1(v1).k2(v2)...] *)
Fixpoint fluent (cs : list (kind * string)) (r : ref) : M ref :=
  match cs with
  | [] => ret r
  | (k, v) :: rest => r' <- method k v r ;; fluent rest r'
  end.

(** [cssSelectorBuilder.k1(v1).k2(v2)....stringify()] *)
Definition facade_chain (cs : list (kind * string)) : M string :=
  r <- fluent cs Facade ;; stringify_at r.

(** [combine(element('div').id('main'), '+', element('table').id('data')).stringify()] *)
Definition combine_example : M string :=
  l <- fluent [(KElement, "div"); (KId, "main")] Facade ;;
  r <- fluent [(KElement, "table"); (KId, "data")] Facade ;;
  c <- combine l "+" r ;;
  stringify_at c.

(** The nested example of the source's documentation: the inner results
    are the facade itself, handed to the outer [combine] as [selector2]. *)
Definition combine_nested_example : M string :=
  l1 <- fluent [(KElement, "div"); (KId, "main"); (KClass, "container");
                (KClass, "draggable")] Facade ;;
  l2 <- fluent [(KElement, "table"); (KId, "data")] Facade ;;
  l3 <- fluent [(KElement, "tr"); (KPseudoClass, "nth-of-type(even)")] Facade ;;
  r3 <- fluent [(KElement, "td"); (KPseudoClass, "nth-of-type(even)")] Facade ;;
  c3 <- combine l3 " " r3 ;;
  c2 <- combine l2 "~" c3 ;;
  c1 <- combine l1 "+" c2 ;;
  stringify_at c1.

(** The store of a freshly loaded module. *)
Definition initial_store : store :=
  {| facade_str := ""; cells := fun _ => new_MyCssSelectorBuilder; next := 0 |}.

(** ** Rectangle *)

Module Rect.

(** A JavaScript number is an IEEE 754 binary64 value. *)
Record Rectangle : Type := mkRectangle {
  height : float;
  width : float
}.

(** [new Rectangle(width, height)] *)
Definition new_Rectangle (width height : float) : Rectangle :=
  {| height := height; width := width |}.

(** [this.getArea()]: the product, and the object as the call leaves it. *)
Definition getArea (this : Rectangle) : float * Rectangle :=
  (PrimFloat.mul (height this) (width this), this).

End Rect.

(** ** Stages of a fragment under construction *)

(** What a successful call of kind [k] leaves in the builder, and what no
    later successful call removes. *)
Definition mark (k : kind) (b : MyCssSelectorBuilder) : Prop :=
  match k with
  | KElement => hasElement b = true
  | KId => includes (str b) "#" = true
  | KClass => includes (str b) "." = true
  | KAttr => includes (str b) "[" = true
  | KPseudoClass => includes (str b) ":" = true
  | KPseudoElement => includes (str b) "::" = true
  end.

(** A builder that is about to accept a call of kind [k], and after it the
    calls of the kinds that may follow. *)
Definition admits (k : kind) (b : MyCssSelectorBuilder) : Prop :=
  match k with
  | KElement => hasElement b = false /\ str b = ""
  | KId =>
      includes (str b) "#" = false /\ includes (str b) "." = false /\
      includes (str b) "[" = false /\ includes (str b) ":" = false
  | KClass => includes (str b) "[" = false /\ includes (str b) ":" = false
  | KAttr => includes (str b) ":" = false
  | KPseudoClass | KPseudoElement =>
      includes (str b) "::" = false /\ ends_with ":" (str b) = false
  end.

(** The earliest kind that may follow a call of kind [k]. *)
Definition next_kind (k : kind) : kind :=
  match k with
  | KElement => KId
  | KId => KClass
  | k => k
  end.

Definition is_element (k : kind) : bool :=
  match k with
  | KElement => true
  | _ => false
  end.

(** The guard of the method of kind [k], as a test on the builder. *)
Definition guard (k : kind) (b : MyCssSelectorBuilder) : bool :=
  match k with
  | KElement => negb (hasElement b) && negb (truthy (str b))
  | KId =>
      negb (includes (str b) "#") && negb (includes (str b) ".") &&
      negb (includes (str b) "[") && negb (includes (str b) ":")
  | KClass => negb (includes (str b) "[") && negb (includes (str b) ":")
  | KAttr => negb (includes (str b) ":")
  | KPseudoClass | KPseudoElement => negb (includes (str b) "::")
  end.

(** The builder as a successful call of kind [k] with value [v] leaves it. *)
Definition after (k : kind) (v : string) (b : MyCssSelectorBuilder)
  : MyCssSelectorBuilder :=
  {| str := str b ++ token (k, v); hasElement := hasElement b || is_element k |}.

(** No colon at the end of the buffer when a pseudo-class token that a
    further call follows is about to be appended. *)
Definition seam (k : kind) (more : bool) (b : MyCssSelectorBuilder) : bool :=
  negb (is_pseudoClass k && more && ends_with ":" (str b)).

(** * Properties *)

Example facade_chain_doc1 :
  fst (facade_chain [(KId, "main"); (KClass, "container"); (KClass, "editable")]
         initial_store) = Ok "#main.container.editable".
Proof. reflexivity. Qed.

Example facade_chain_doc2 :
  fst (facade_chain
         [(KElement, "a");
          (KAttr, "href$=" ++ String dquote ".png" ++ String dquote "");
          (KPseudoClass, "focus")] initial_store)
  = Ok ("a[href$=" ++ String dquote ".png" ++ String dquote "]:focus").
Proof. reflexivity. Qed.

Example combine_example_runs :
  fst (combine_example initial_store) = Ok "div#main + table#data".
Proof. reflexivity. Qed.

Example combine_nested_example_runs :
  fst (combine_nested_example initial_store) =
  Ok "div#main.container.draggable + table#data ~ tr:nth-of-type(even)   td:nth-of-type(even)".
Proof. reflexivity. Qed.

(** ** Substring search *)

Section Includes.

Lemma append_nil_r (s : string) : s ++ "" = s.
Proof. induction s as [|a s IH]; simpl; [reflexivity | now rewrite IH]. Qed.

Lemma append_assoc (s t u : string) : (s ++ t) ++ u = s ++ t ++ u.
Proof. induction s as [|a s IH]; simpl; [reflexivity | now rewrite IH]. Qed.

Lemma prefix_nil (s : string) : String.prefix "" s = true.
Proof. now destruct s. Qed.

Lemma prefix_app_l (p s t : string) :
  String.prefix p s = true -> String.prefix p (s ++ t) = true.
Proof.
  revert p; induction s as [|a s IH]; intros p; destruct p as [|b p]; simpl;
    try discriminate; try (intros _; first [reflexivity | apply prefix_nil]).
  destruct (ascii_dec b a); [apply IH | easy].
Qed.

(** Appending text never removes an occurrence. *)
Lemma includes_app_l (s t p : string) :
  includes s p = true -> includes (s ++ t) p = true.
Proof.
  induction s as [|a s IH]; simpl.
  - rewrite orb_false_r. destruct p; [|discriminate].
    intros _. destruct t; reflexivity.
  - intros H. apply orb_true_iff in H. apply orb_true_iff.
    destruct H as [H|H]; [left | right; auto].
    apply (prefix_app_l p (String a s) t H).
Qed.

(** [includes] finds exactly the decompositions [l ++ pat ++ r]. *)
Lemma prefix_spec (p s : string) :
  String.prefix p s = true <-> exists r, s = p ++ r.
Proof.
  revert s; induction p as [|a p IH]; intros s; simpl.
  - destruct s; split; eauto.
  - destruct s as [|b s]; simpl.
    + split; [discriminate | intros [r H]; discriminate].
    + destruct (ascii_dec a b) as [->|N].
      * rewrite IH. split; intros [r H]; exists r; congruence.
      * split; [discriminate | intros [r H]; congruence].
Qed.

Lemma includes_spec (s p : string) :
  includes s p = true <-> exists l r, s = l ++ p ++ r.
Proof.
  induction s as [|a s IH].
  - destruct p as [|b p]; simpl.
    + split; [intros _; exists "", ""; reflexivity | reflexivity].
    + split; [discriminate | intros [[|c l] [r H]]; discriminate].
  - change (includes (String a s) p) with
      (String.prefix p (String a s) || includes s p).
    rewrite orb_true_iff, IH, prefix_spec. split.
    + intros [[r H] | [l [r H]]].
      * exists "", r. exact H.
      * exists (String a l), r. simpl. now rewrite H.
    + intros [[|b l] [r H]].
      * left. exists r. exact H.
      * right. exists l, r. simpl in H. congruence.
Qed.

Lemma includes_char (c : ascii) (s : string) :
  includes s (String c "") = has_char c s.
Proof.
  induction s as [|a s IH]; simpl; [reflexivity|].
  rewrite IH. destruct (ascii_dec c a) as [->|N].
  - rewrite Ascii.eqb_refl. now destruct s.
  - apply Ascii.eqb_neq in N. now rewrite N.
Qed.

Lemma has_char_app (c : ascii) (s t : string) :
  has_char c (s ++ t) = has_char c s || has_char c t.
Proof.
  induction s as [|a s IH]; simpl; [reflexivity|].
  now rewrite IH, orb_assoc.
Qed.

Lemma includes_char_app (c : ascii) (s t : string) :
  includes (s ++ t) (String c "") =
  includes s (String c "") || includes t (String c "").
Proof. rewrite !includes_char. apply has_char_app. Qed.

Lemma prefix_cons (a b : ascii) (p s : string) :
  String.prefix (String a p) (String b s) = Ascii.eqb a b && String.prefix p s.
Proof.
  change (String.prefix (String a p) (String b s))
    with (if ascii_dec a b then String.prefix p s else false).
  destruct (ascii_dec a b) as [->|N].
  - now rewrite Ascii.eqb_refl.
  - apply Ascii.eqb_neq in N. now rewrite N.
Qed.

Lemma includes_cons (a : ascii) (s p : string) :
  includes (String a s) p = String.prefix p (String a s) || includes s p.
Proof. reflexivity. Qed.

(** ['::'] occurs in a join inside one of the parts or across the seam. *)
Lemma includes_dcolon_cons (a : ascii) (s : string) :
  includes (String a s) "::" =
  (Ascii.eqb ":" a && starts_with ":" s) || includes s "::".
Proof.
  rewrite includes_cons. f_equal.
  rewrite prefix_cons. f_equal.
  destruct s as [|b s]; [reflexivity|].
  rewrite prefix_cons, prefix_nil. unfold starts_with. apply andb_true_r.
Qed.

Lemma includes_dcolon_app (s t : string) :
  includes (s ++ t) "::" =
  includes s "::" || (ends_with ":" s && starts_with ":" t) || includes t "::".
Proof.
  induction s as [|a s IH].
  - reflexivity.
  - change (String a s ++ t) with (String a (s ++ t)).
    rewrite !includes_dcolon_cons, IH. destruct s as [|b s].
    + change (ends_with ":" (String a "")) with (Ascii.eqb ":" a).
      change ("" ++ t) with t.
      change (starts_with ":" "") with false.
      change (includes "" "::") with false.
      change (ends_with ":" "") with false.
      generalize (Ascii.eqb ":" a); intros e.
      destruct e, (starts_with ":" t), (includes t "::"); reflexivity.
    + change (String b s ++ t) with (String b (s ++ t)).
      change (starts_with ":" (String b (s ++ t))) with (Ascii.eqb ":" b).
      change (starts_with ":" (String b s)) with (Ascii.eqb ":" b).
      change (ends_with ":" (String a (String b s)))
        with (ends_with ":" (String b s)).
      generalize (Ascii.eqb ":" a), (Ascii.eqb ":" b); intros e1 e2.
      destruct e1, e2, (includes (String b s) "::"),
        (ends_with ":" (String b s)), (starts_with ":" t); reflexivity.
Qed.

Lemma has_char_starts (c : ascii) (s : string) :
  has_char c s = false -> starts_with c s = false.
Proof. destruct s; simpl; [easy|]. now intros H%orb_false_elim. Qed.

Lemma has_char_ends (c : ascii) (s : string) :
  has_char c s = false -> ends_with c s = false.
Proof.
  induction s as [|a s IH]; simpl; [easy|].
  intros [H1 H2]%orb_false_elim. destruct s; auto.
Qed.

Lemma has_char_dcolon (s : string) :
  has_char ":" s = false -> includes s "::" = false.
Proof.
  induction s as [|a s IH]; [reflexivity|].
  rewrite includes_dcolon_cons. simpl.
  intros [H1 H2]%orb_false_elim. now rewrite H1, IH.
Qed.

Lemma ends_with_app (c : ascii) (s t : string) :
  truthy t = true -> ends_with c (s ++ t) = ends_with c t.
Proof.
  intros Ht. induction s as [|a s IH]; [reflexivity|].
  simpl. rewrite IH. destruct (s ++ t) eqn:E; [|reflexivity].
  destruct s, t; discriminate.
Qed.

Lemma truthy_includes (s p : string) :
  truthy p = true -> includes s p = true -> truthy s = true.
Proof. destruct s, p; simpl; auto. Qed.

End Includes.

(** ** One call *)

Section Calls.

Variables (value : string) (this : MyCssSelectorBuilder).

Lemma colon_dcolon (s : string) :
  includes s ":" = false -> includes s "::" = false.
Proof. rewrite includes_char. apply has_char_dcolon. Qed.

Lemma element_ok :
  hasElement this = false -> str this = "" ->
  element value this = Ok {| str := value; hasElement := true |}.
Proof. unfold element. now intros -> ->. Qed.

Lemma id_ok :
  includes (str this) "#" = false -> includes (str this) "." = false ->
  includes (str this) "[" = false -> includes (str this) ":" = false ->
  id value this = Ok (set_str this (str this ++ "#" ++ value)).
Proof.
  unfold id. intros -> -> -> H. now rewrite H, (colon_dcolon _ H).
Qed.

Lemma classfn_ok :
  includes (str this) "[" = false -> includes (str this) ":" = false ->
  classfn value this = Ok (set_str this (str this ++ "." ++ value)).
Proof.
  unfold classfn. intros -> H. now rewrite H, (colon_dcolon _ H).
Qed.

Lemma attr_ok :
  includes (str this) ":" = false ->
  attr value this = Ok (set_str this (str this ++ "[" ++ value ++ "]")).
Proof.
  unfold attr. intros H. now rewrite H, (colon_dcolon _ H).
Qed.

Lemma pseudoClass_ok :
  includes (str this) "::" = false ->
  pseudoClass value this = Ok (set_str this (str this ++ ":" ++ value)).
Proof. unfold pseudoClass. now intros ->. Qed.

Lemma pseudoElement_ok :
  includes (str this) "::" = false ->
  pseudoElement value this = Ok (set_str this (str this ++ "::" ++ value)).
Proof. unfold pseudoElement. now intros ->. Qed.

End Calls.

(** Whatever a call returns normally is [this] with its token appended. *)
Lemma call_Ok_inv (k : kind) (v : string) (b b' : MyCssSelectorBuilder) :
  call k v b = Ok b' ->
  str b' = str b ++ token (k, v) /\
  hasElement b' = hasElement b || is_element k.
Proof.
  destruct k; simpl; unfold element, id, classfn, attr, pseudoClass, pseudoElement;
    repeat match goal with
    | |- context [if ?c then _ else _] => destruct c; try discriminate
    end;
    intros [= <-]; simpl; auto using orb_false_r.
Qed.

(** ** The canonical sequence, read pairwise *)

Section Canonical.

Lemma canonical_nil : canonical [].
Proof. split; [constructor | intros; simpl; lia]. Qed.

Lemma follows_not_self (k : kind) (l : list kind) :
  once k = true -> Forall (follows k) l -> count_occ kind_eq_dec l k = 0.
Proof.
  intros Ho HF. apply count_occ_not_In. intros HIn.
  rewrite Forall_forall in HF. destruct (HF k HIn) as [_ N]. now apply N.
Qed.

Lemma pairwise_canonical (ks : list kind) :
  StronglySorted follows ks -> canonical ks.
Proof.
  induction 1 as [|a l HS [IHs IHc] HF]; [apply canonical_nil|].
  split.
  - constructor; [exact IHs|].
    eapply Forall_impl; [|exact HF]. now intros k [Hr _].
  - intros k Ho. simpl. destruct (kind_eq_dec a k) as [->|N].
    + now rewrite (follows_not_self k l Ho HF).
    + now apply IHc.
Qed.

Lemma canonical_pairwise (ks : list kind) :
  canonical ks -> StronglySorted follows ks.
Proof.
  intros [HS HC]. induction HS as [|a l HS IH HF]; constructor.
  - apply IH. intros k Ho. specialize (HC k Ho). simpl in HC.
    destruct (kind_eq_dec a k); lia.
  - rewrite Forall_forall in *. intros k HIn. split; [now apply HF|].
    intros Ho <-. specialize (HC a Ho). simpl in HC.
    destruct (kind_eq_dec a a) as [_|N]; [|now apply N].
    apply (count_occ_In kind_eq_dec) in HIn. lia.
Qed.

Lemma follows_next (k k' : kind) : follows k k' -> rank (next_kind k) <= rank k'.
Proof.
  intros [Hr Hn]. destruct k, k'; simpl in *; try lia;
    exfalso; now apply Hn.
Qed.

End Canonical.

(** ** Successful calls come in canonical order *)

Section Order.

Lemma call_mark (k : kind) (v : string) (b b' : MyCssSelectorBuilder) :
  call k v b = Ok b' -> mark k b'.
Proof.
  intros H. destruct (call_Ok_inv _ _ _ _ H) as [Hs He].
  destruct k; unfold mark; try (rewrite Hs; apply includes_spec; simpl token).
  - rewrite He. apply orb_true_r.
  - now exists (str b), v.
  - now exists (str b), v.
  - now exists (str b), (v ++ "]").
  - now exists (str b), v.
  - now exists (str b), v.
Qed.

Lemma mark_preserved (k k' : kind) (v : string) (b b' : MyCssSelectorBuilder) :
  mark k b -> call k' v b = Ok b' -> mark k b'.
Proof.
  intros Hm H. destruct (call_Ok_inv _ _ _ _ H) as [Hs He].
  destruct k; unfold mark in *; try (rewrite Hs; now apply includes_app_l).
  rewrite He, Hm. reflexivity.
Qed.

Lemma mark_truthy (k : kind) (b : MyCssSelectorBuilder) :
  mark k b -> hasElement b = true \/ truthy (str b) = true.
Proof.
  destruct k; unfold mark; auto; intros H; right;
    (eapply truthy_includes; [|exact H]); reflexivity.
Qed.

(** A call that succeeds on a marked builder is of a kind that may follow. *)
Lemma mark_blocks (k k' : kind) (v : string) (b b' : MyCssSelectorBuilder) :
  mark k b -> call k' v b = Ok b' -> follows k k'.
Proof.
  intros Hm H.
  assert (Ht := mark_truthy _ _ Hm).
  destruct k'; simpl in H;
    unfold element, id, classfn, attr, pseudoClass, pseudoElement in H;
    repeat match type of H with
    | context [if ?c then _ else _] => destruct c eqn:?; try discriminate
    end;
    try match goal with
    | E : _ || _ = false |- _ => apply orb_false_elim in E; destruct E
    end;
    destruct k; unfold mark in Hm;
    try (split; [simpl; lia | simpl; intros; discriminate]);
    exfalso; try congruence; destruct Ht; congruence.
Qed.

Lemma chain_marked (k : kind) (cs : list (kind * string))
    (b b' : MyCssSelectorBuilder) :
  mark k b -> chain cs b = Ok b' -> Forall (follows k) (kinds cs).
Proof.
  revert b. induction cs as [|[k1 v1] rest IH]; intros b Hm H; [constructor|].
  simpl in H. destruct (call k1 v1 b) as [b1|] eqn:E; [|discriminate].
  constructor.
  - exact (mark_blocks _ _ _ _ _ Hm E).
  - exact (IH b1 (mark_preserved _ _ _ _ _ Hm E) H).
Qed.

Lemma chain_pairwise (cs : list (kind * string)) (b b' : MyCssSelectorBuilder) :
  chain cs b = Ok b' -> StronglySorted follows (kinds cs).
Proof.
  revert b. induction cs as [|[k v] rest IH]; intros b H; [constructor|].
  simpl in H. destruct (call k v b) as [b1|] eqn:E; [|discriminate].
  constructor.
  - exact (IH b1 H).
  - exact (chain_marked k rest b1 b' (call_mark _ _ _ _ E) H).
Qed.

End Order.

(** ** Canonical chains of clean values succeed *)

Section Success.

Lemma colon_ends (s : string) :
  includes s ":" = false -> ends_with ":" s = false.
Proof. rewrite includes_char. apply has_char_ends. Qed.

Lemma colon_starts (s : string) :
  includes s ":" = false -> starts_with ":" s = false.
Proof. rewrite includes_char. apply has_char_starts. Qed.

Lemma admits_mono (k k' : kind) (b : MyCssSelectorBuilder) :
  rank k <= rank k' -> admits k b -> admits k' b.
Proof.
  destruct k.
  - intros _ H. destruct k'; [exact H|..];
      destruct H as [_ E]; simpl; rewrite E; repeat split; reflexivity.
  - destruct k'; simpl; try lia; intros _ H; auto; decompose [and] H;
      repeat split; auto using colon_dcolon, colon_ends.
  - destruct k'; simpl; try lia; intros _ H; auto; decompose [and] H;
      repeat split; auto using colon_dcolon, colon_ends.
  - destruct k'; simpl; try lia; intros _ H; auto;
      repeat split; auto using colon_dcolon, colon_ends.
  - destruct k'; simpl; try lia; intros _ H; exact H.
  - destruct k'; simpl; try lia; intros _ H; exact H.
Qed.

Lemma admits_call (k : kind) (v : string) (b : MyCssSelectorBuilder) :
  admits k b -> exists b', call k v b = Ok b'.
Proof.
  destruct k; simpl; intros H; decompose [and] H; eexists.
  - now apply element_ok.
  - now apply id_ok.
  - now apply classfn_ok.
  - now apply attr_ok.
  - now apply pseudoClass_ok.
  - now apply pseudoElement_ok.
Qed.

Ltac unpack_clean H :=
  unfold clean in H; cbv beta iota in H;
  repeat match goal with
  | X : negb _ = true |- _ => apply negb_true_iff in X
  | X : _ && _ = true |- _ => let X' := fresh X in apply andb_prop in X; destruct X as [X X']
  end.

Ltac lacks_char :=
  rewrite ?includes_char_app;
  repeat match goal with
  | X : includes _ _ = false |- _ => rewrite X
  end;
  reflexivity.

Lemma admits_step (k : kind) (v : string) (b b' : MyCssSelectorBuilder) :
  admits k b -> clean (k, v) = true -> k <> KPseudoElement ->
  call k v b = Ok b' -> admits (next_kind k) b'.
Proof.
  intros Ha Hc Hk H. destruct (call_Ok_inv _ _ _ _ H) as [Hs _].
  destruct k; unpack_clean Hc; simpl next_kind; unfold admits in *;
    unfold token in Hs; rewrite Hs; decompose [and] Ha.
  - match goal with E : str b = "" |- _ => rewrite E end.
    change ("" ++ v) with v. now repeat split.
  - split; lacks_char.
  - split; lacks_char.
  - lacks_char.
  - assert (Hv : includes (":" ++ v) "::" = false).
    { rewrite includes_dcolon_app, (colon_starts _ Hc), (colon_dcolon _ Hc).
      reflexivity. }
    split.
    + rewrite includes_dcolon_app, Hv.
      repeat match goal with X : _ = false |- _ => rewrite X end. reflexivity.
    + rewrite ends_with_app by reflexivity.
      rewrite ends_with_app by assumption. now apply colon_ends.
  - now elim Hk.
Qed.

Lemma chain_succeeds (cs : list (kind * string)) (b : MyCssSelectorBuilder) :
  StronglySorted follows (kinds cs) ->
  forallb clean (removelast cs) = true ->
  match cs with [] => True | (k, _) :: _ => admits k b end ->
  exists b', chain cs b = Ok b' /\ str b' = str b ++ tokens cs.
Proof.
  revert b. induction cs as [|[k v] rest IH]; intros b HS Hc Ha.
  - exists b. split; [reflexivity|]. simpl. now rewrite append_nil_r.
  - destruct (admits_call k v b Ha) as [b1 E].
    destruct (call_Ok_inv _ _ _ _ E) as [Hs1 _].
    inversion HS as [|? ? HS' HF]; subst.
    destruct rest as [|[k' v'] rest'].
    + exists b1. simpl. rewrite E. split; [reflexivity|].
      rewrite Hs1. simpl tokens. now rewrite append_nil_r.
    + change (removelast ((k, v) :: (k', v') :: rest'))
        with ((k, v) :: removelast ((k', v') :: rest')) in Hc.
      simpl forallb in Hc. apply andb_prop in Hc. destruct Hc as [Hc1 Hc2].
      inversion HF as [|? ? Hf _]; subst.
      destruct (IH b1 HS' Hc2) as [b' [E' Hs']].
      { apply (admits_mono (next_kind k)); [now apply follows_next|].
        apply (admits_step k v b b1); auto.
        intros ->. destruct Hf as [Hr Hn]. destruct k'; simpl in Hr; try lia.
        now apply Hn. }
      exists b'. split.
      * change (chain ((k, v) :: (k', v') :: rest') b)
          with (bind (call k v b) (chain ((k', v') :: rest'))).
        rewrite E. exact E'.
      * rewrite Hs', Hs1.
        change (tokens ((k, v) :: (k', v') :: rest'))
          with (token (k, v) ++ tokens ((k', v') :: rest')).
        apply append_assoc.
Qed.

End Success.

(** ** Chains and what they keep *)

Section Chains.

Lemma chain_mark (k : kind) (cs : list (kind * string))
    (b b' : MyCssSelectorBuilder) :
  mark k b -> chain cs b = Ok b' -> mark k b'.
Proof.
  revert b. induction cs as [|[k1 v1] rest IH]; intros b Hm H.
  - now injection H as <-.
  - simpl in H. destruct (call k1 v1 b) as [b1|] eqn:E; [|discriminate].
    exact (IH b1 (mark_preserved _ _ _ _ _ Hm E) H).
Qed.

Lemma chain_hasElement (cs : list (kind * string)) (b b' : MyCssSelectorBuilder) :
  chain cs b = Ok b' ->
  hasElement b' = hasElement b || existsb is_element (kinds cs).
Proof.
  revert b. induction cs as [|[k v] rest IH]; intros b H.
  - injection H as <-. simpl. now rewrite orb_false_r.
  - simpl in H. destruct (call k v b) as [b1|] eqn:E; [|discriminate].
    rewrite (IH b1 H). destruct (call_Ok_inv _ _ _ _ E) as [_ ->].
    simpl. now rewrite orb_assoc.
Qed.

Lemma chain_str (cs : list (kind * string)) (b b' : MyCssSelectorBuilder) :
  chain cs b = Ok b' -> str b' = str b ++ tokens cs.
Proof.
  revert b. induction cs as [|[k v] rest IH]; intros b H.
  - injection H as <-. simpl. now rewrite append_nil_r.
  - simpl in H. destruct (call k v b) as [b1|] eqn:E; [|discriminate].
    rewrite (IH b1 H). destruct (call_Ok_inv _ _ _ _ E) as [-> _].
    apply append_assoc.
Qed.

Lemma errors_differ : DuplicateSelectorError <> OrderError.
Proof. discriminate. Qed.

End Chains.

(** ** The store *)

Section Store.

Lemma cells_set_cell_eq (s : store) (n : nat) (b : MyCssSelectorBuilder) :
  cells (set_cell s n b) n = b.
Proof. simpl. now rewrite Nat.eqb_refl. Qed.

Lemma cells_set_cell_neq (s : store) (n m : nat) (b : MyCssSelectorBuilder) :
  m <> n -> cells (set_cell s n b) m = cells s m.
Proof. intros N. simpl. apply Nat.eqb_neq in N. now rewrite N. Qed.

(** A chain on the builder at [n] does to that cell what [chain] says, and
    touches nothing else. *)
Lemma fluent_builder (cs : list (kind * string)) (n : nat) (s : store)
    (b' : MyCssSelectorBuilder) :
  chain cs (cells s n) = Ok b' ->
  exists s', fluent cs (Builder n) s = (Ok (Builder n), s') /\
             cells s' n = b' /\
             (forall m, m <> n -> cells s' m = cells s m) /\
             facade_str s' = facade_str s /\ next s' = next s.
Proof.
  revert s. induction cs as [|[k v] rest IH]; intros s H.
  - injection H as <-. exists s. now repeat split.
  - simpl in H. destruct (call k v (cells s n)) as [b1|] eqn:E; [|discriminate].
    destruct (IH (set_cell s n b1)) as (s' & Hf & Hc & Ho & Hfs & Hn).
    { now rewrite cells_set_cell_eq. }
    exists s'. repeat split; auto.
    + simpl. unfold bindM, builder_method. now rewrite E.
    + intros m Hm. rewrite (Ho m Hm). now apply cells_set_cell_neq.
Qed.

(** The first call of a chain on the facade news the builder at [next s]. *)
Lemma fluent_facade (c : kind * string) (rest : list (kind * string)) (s : store) :
  fluent (c :: rest) Facade s =
  fluent (c :: rest) (Builder (next s)) (snd (new_builder s)).
Proof. destruct c as [k v]. reflexivity. Qed.

Lemma new_builder_cell (s : store) :
  cells (snd (new_builder s)) (next s) = new_MyCssSelectorBuilder.
Proof. simpl. now rewrite Nat.eqb_refl. Qed.

(** A whole chain started on the facade: the builder is the new object. *)
Lemma fluent_facade_run (c : kind * string) (rest : list (kind * string))
    (s : store) (b' : MyCssSelectorBuilder) :
  chain (c :: rest) new_MyCssSelectorBuilder = Ok b' ->
  exists s', fluent (c :: rest) Facade s = (Ok (Builder (next s)), s') /\
             cells s' (next s) = b' /\
             (forall m, m <> next s -> cells s' m = cells s m) /\
             facade_str s' = facade_str s /\ next s' = S (next s).
Proof.
  intros H. rewrite <- (new_builder_cell s) in H.
  destruct (fluent_builder _ _ _ _ H) as (s' & Hf & Hc & Ho & Hfs & Hn).
  exists s'. rewrite fluent_facade. repeat split; auto.
  intros m Hm. rewrite (Ho m Hm). simpl.
  apply Nat.eqb_neq in Hm. now rewrite Hm.
Qed.

(** A chain run on the object at [n] ends as [chain] says on its state,
    and touches no other object, nor the facade. *)
Lemma fluent_chain_result (cs : list (kind * string)) (n : nat) (s : store) :
  match chain cs (cells s n) with
  | Ok b' => fst (fluent cs (Builder n) s) = Ok (Builder n) /\
             cells (snd (fluent cs (Builder n) s)) n = b'
  | Throw e => fst (fluent cs (Builder n) s) = Throw e
  end /\
  (forall m, m <> n -> cells (snd (fluent cs (Builder n) s)) m = cells s m) /\
  facade_str (snd (fluent cs (Builder n) s)) = facade_str s /\
  next (snd (fluent cs (Builder n) s)) = next s.
Proof.
  revert s. induction cs as [|[k v] rest IH]; intros s.
  - simpl. now repeat split.
  - change (fluent ((k, v) :: rest) (Builder n) s)
      with (bindM (builder_method k v n) (fluent rest) s).
    unfold bindM, builder_method. simpl chain.
    destruct (call k v (cells s n)) as [b1|e] eqn:E; simpl bind.
    + destruct (IH (set_cell s n b1)) as (H1 & H2 & H3 & H4).
      rewrite cells_set_cell_eq in H1. repeat split; auto.
      intros m Hm. rewrite (H2 m Hm). now apply cells_set_cell_neq.
    + now repeat split.
Qed.

Lemma facade_chain_result (c : kind * string) (rest : list (kind * string))
    (s : store) :
  fst (facade_chain (c :: rest) s) =
  match chain (c :: rest) new_MyCssSelectorBuilder with
  | Ok b => Ok (str b)
  | Throw e => Throw e
  end.
Proof.
  unfold facade_chain, bindM. rewrite fluent_facade.
  destruct (fluent_chain_result (c :: rest) (next s) (snd (new_builder s)))
    as (H1 & _).
  rewrite new_builder_cell in H1.
  destruct (chain (c :: rest) new_MyCssSelectorBuilder) as [b|e].
  - destruct H1 as [H1 H2].
    destruct (fluent (c :: rest) (Builder (next s)) (snd (new_builder s)))
      as [r s'].
    simpl in H1, H2. rewrite H1. simpl. now rewrite H2.
  - destruct (fluent (c :: rest) (Builder (next s)) (snd (new_builder s)))
      as [r s'].
    simpl in H1. now rewrite H1.
Qed.

(** [combine] on two distinct builders. *)
Lemma combine_distinct (s : store) (i j : nat) (c : string) :
  i <> j ->
  fst (combine (Builder i) c (Builder j) s) = Ok Facade /\
  facade_str (snd (combine (Builder i) c (Builder j) s)) =
    facade_str s ++ str (cells s i) ++ " " ++ c ++ " " ++ str (cells s j) /\
  str (cells (snd (combine (Builder i) c (Builder j) s)) i) = "" /\
  str (cells (snd (combine (Builder i) c (Builder j) s)) j) = "" /\
  hasElement (cells (snd (combine (Builder i) c (Builder j) s)) i)
    = hasElement (cells s i) /\
  hasElement (cells (snd (combine (Builder i) c (Builder j) s)) j)
    = hasElement (cells s j).
Proof.
  intros N. unfold combine, bindM. simpl.
  assert (N' : j <> i) by congruence.
  apply Nat.eqb_neq in N, N'. rewrite N, N', !Nat.eqb_refl. simpl.
  now repeat split.
Qed.

Lemma combine_example_from_empty (s : store) :
  facade_str s = "" ->
  fst (combine_example s) = Ok "div#main + table#data".
Proof.
  intros He. unfold combine_example, bindM.
  destruct (fluent_facade_run (KElement, "div") [(KId, "main")] s
              {| str := "div#main"; hasElement := true |} eq_refl)
    as (s1 & E1 & C1 & O1 & F1 & N1).
  rewrite E1.
  destruct (fluent_facade_run (KElement, "table") [(KId, "data")] s1
              {| str := "table#data"; hasElement := true |} eq_refl)
    as (s2 & E2 & C2 & O2 & F2 & N2).
  rewrite E2.
  assert (N : next s <> next s1) by lia.
  destruct (combine_distinct s2 (next s) (next s1) "+" N) as (R & F & _).
  destruct (combine (Builder (next s)) "+" (Builder (next s1)) s2) as [r s3].
  simpl in R, F. rewrite R. simpl. rewrite F, F2, F1, He, C2.
  rewrite (O2 (next s) N), C1. reflexivity.
Qed.

End Store.

(** ** IEEE 754 multiplication *)

Section FloatMul.

Lemma SF64mul_comm (x y : SpecFloat.spec_float) :
  FloatAxioms.SF64mul x y = FloatAxioms.SF64mul y x.
Proof.
  unfold FloatAxioms.SF64mul, SpecFloat.SFmul.
  destruct x as [sx|sx| |sx mx ex], y as [sy|sy| |sy my ey];
    try reflexivity; try (now rewrite xorb_comm).
  now rewrite xorb_comm, Pos.mul_comm, Z.add_comm.
Qed.

Lemma float_mul_comm (x y : float) : PrimFloat.mul x y = PrimFloat.mul y x.
Proof.
  apply FloatAxioms.Prim2SF_inj.
  now rewrite !FloatAxioms.mul_spec, SF64mul_comm.
Qed.

End FloatMul.

(** ** Exactly which values a canonical chain accepts *)

Section Exact.

Lemma guard_true (k : kind) (v : string) (b : MyCssSelectorBuilder) :
  guard k b = true -> call k v b = Ok (after k v b).
Proof.
  destruct b as [s h]. destruct k.
  - destruct h, s; intros G; try discriminate G. reflexivity.
  - unfold guard, after; simpl str; simpl hasElement; intros G.
    apply andb_prop in G. destruct G as [G G4].
    apply andb_prop in G. destruct G as [G G3].
    apply andb_prop in G. destruct G as [G1 G2].
    apply negb_true_iff in G1, G2, G3, G4.
    simpl call. rewrite (id_ok v {| str := s; hasElement := h |}); auto.
    unfold set_str. simpl. now rewrite orb_false_r.
  - unfold guard, after; simpl str; simpl hasElement; intros G.
    apply andb_prop in G. destruct G as [G1 G2].
    apply negb_true_iff in G1, G2.
    simpl call. rewrite (classfn_ok v {| str := s; hasElement := h |}); auto.
    unfold set_str. simpl. now rewrite orb_false_r.
  - unfold guard, after; simpl str; simpl hasElement; intros G.
    apply negb_true_iff in G.
    simpl call. rewrite (attr_ok v {| str := s; hasElement := h |}); auto.
    unfold set_str. simpl. now rewrite orb_false_r.
  - unfold guard, after; simpl str; simpl hasElement; intros G.
    apply negb_true_iff in G.
    simpl call. rewrite (pseudoClass_ok v {| str := s; hasElement := h |}); auto.
    unfold set_str. simpl. now rewrite orb_false_r.
  - unfold guard, after; simpl str; simpl hasElement; intros G.
    apply negb_true_iff in G.
    simpl call. rewrite (pseudoElement_ok v {| str := s; hasElement := h |}); auto.
    unfold set_str. simpl. now rewrite orb_false_r.
Qed.

Lemma guard_false (k : kind) (v : string) (b : MyCssSelectorBuilder) :
  guard k b = false -> exists e, call k v b = Throw e.
Proof.
  destruct k; unfold guard, call;
    unfold element, id, classfn, attr, pseudoClass, pseudoElement; intros G;
    repeat match goal with
    | |- context [if ?c then _ else _] =>
        let E := fresh "E" in destruct c eqn:E
    end;
    try (first [now exists DuplicateSelectorError | now exists OrderError]);
    exfalso; simpl in G;
    try match goal with X : _ || _ = false |- _ =>
      apply orb_false_elim in X; destruct X end;
    repeat match goal with
    | X : includes _ _ = false |- _ => rewrite X in G
    | X : hasElement _ = false |- _ => rewrite X in G
    | X : truthy _ = false |- _ => rewrite X in G
    end; simpl in G; discriminate G.
Qed.

Lemma guard_lacks_colon (k : kind) (b : MyCssSelectorBuilder) :
  guard k b = true -> rank k <= 3 -> includes (str b) ":" = false.
Proof.
  destruct k; simpl; intros G Hr; try lia.
  - apply andb_prop in G. destruct G as [_ G]. apply negb_true_iff in G.
    now destruct (str b).
  - apply andb_prop in G. destruct G as [_ G]. now apply negb_true_iff in G.
  - apply andb_prop in G. destruct G as [_ G]. now apply negb_true_iff in G.
  - now apply negb_true_iff in G.
Qed.

Lemma token_truthy (k : kind) (v : string) :
  k <> KElement -> truthy (token (k, v)) = true.
Proof. destruct k; intros N; try reflexivity. now elim N. Qed.

(** The buffer after a call whose guard would pass contains ['::'] only
    if the token does, or if the two colons meet at the seam. *)
Lemma after_dcolon (k : kind) (v : string) (b : MyCssSelectorBuilder) :
  guard k b = true ->
  includes (str (after k v b)) "::" =
  includes (token (k, v)) "::" || (is_pseudoClass k && ends_with ":" (str b)).
Proof.
  intros G. change (str (after k v b)) with (str b ++ token (k, v)).
  rewrite includes_dcolon_app.
  destruct (Nat.le_gt_cases (rank k) 3) as [Hr | Hr].
  - assert (Hc := guard_lacks_colon k b G Hr).
    rewrite (colon_dcolon _ Hc), (colon_ends _ Hc).
    destruct k; simpl in Hr; try lia; cbn [is_pseudoClass andb orb];
      now rewrite orb_false_r.
  - destruct k; simpl in Hr; try lia;
      simpl in G; apply negb_true_iff in G; rewrite G.
    + change (starts_with ":" (token (KPseudoClass, v))) with true.
      cbn [is_pseudoClass andb orb].
      destruct (ends_with ":" (str b)), (includes (token (KPseudoClass, v)) "::");
        reflexivity.
    + assert (T : includes (token (KPseudoElement, v)) "::" = true).
      { apply includes_spec. now exists "", v. }
      rewrite T. now rewrite !orb_true_r.
Qed.

Lemma after_char (k : kind) (v : string) (b : MyCssSelectorBuilder) (c : ascii) :
  includes (str (after k v b)) (String c "") =
  includes (str b) (String c "") || includes (token (k, v)) (String c "").
Proof.
  change (str (after k v b)) with (str b ++ token (k, v)).
  apply includes_char_app.
Qed.

Lemma after_ends (k : kind) (v : string) (b : MyCssSelectorBuilder) :
  guard k b = true ->
  ends_with ":" (str (after k v b)) = ends_with ":" (token (k, v)).
Proof.
  intros G. change (str (after k v b)) with (str b ++ token (k, v)).
  destruct k; try (apply ends_with_app; reflexivity).
  simpl in G. apply andb_prop in G. destruct G as [_ G].
  apply negb_true_iff in G. destruct (str b); [reflexivity | discriminate].
Qed.

Lemma guard_lacks_bracket (k : kind) (b : MyCssSelectorBuilder) :
  guard k b = true -> rank k <= 2 -> includes (str b) "[" = false.
Proof.
  destruct k; simpl; intros G Hr; try lia.
  - apply andb_prop in G. destruct G as [_ G]. apply negb_true_iff in G.
    now destruct (str b).
  - apply andb_prop in G. destruct G as [G _].
    apply andb_prop in G. destruct G as [_ G]. now apply negb_true_iff in G.
  - apply andb_prop in G. destruct G as [G _]. now apply negb_true_iff in G.
Qed.

(** A marker character is in a token if it is in its separators or in
    its value. *)
Lemma token_char (k : kind) (v : string) (c : ascii) :
  includes (token (k, v)) (String c "") =
  includes (token (k, "")) (String c "") || includes v (String c "").
Proof.
  destruct k.
  - reflexivity.
  - change (token (KId, v)) with ("#" ++ v). now rewrite includes_char_app.
  - change (token (KClass, v)) with ("." ++ v). now rewrite includes_char_app.
  - change (token (KAttr, v)) with ("[" ++ v ++ "]").
    change (token (KAttr, "")) with ("[" ++ "]").
    rewrite !includes_char_app.
    destruct (includes "[" (String c "")), (includes v (String c "")),
      (includes "]" (String c "")); reflexivity.
  - change (token (KPseudoClass, v)) with (":" ++ v).
    now rewrite includes_char_app.
  - change (token (KPseudoElement, v)) with ("::" ++ v).
    now rewrite includes_char_app.
Qed.

(** One step of a chain: the next guard passes on the buffer the call
    leaves exactly when the value fits. *)
Lemma fits_step (k k' : kind) (v : string) (more : bool)
    (b : MyCssSelectorBuilder) :
  follows k k' -> guard k b = true ->
  guard k' (after k v b) && seam k' more (after k v b)
  = fits k v k' more && seam k true b.
Proof.
  intros [Hr Hn] G.
  destruct k'.
  - exfalso. destruct k; simpl in Hr; try lia. now apply Hn.
  - destruct k; simpl in Hr; try lia; [|exfalso; now apply Hn].
    unfold guard at 1, seam, fits. rewrite !after_char.
    simpl in G. apply andb_prop in G. destruct G as [_ G].
    apply negb_true_iff in G. destruct (str b); [|discriminate].
    change (token (KElement, v)) with v.
    change (includes "" "#") with false. change (includes "" ".") with false.
    change (includes "" "[") with false. change (includes "" ":") with false.
    cbn [is_pseudoClass andb orb negb]. now rewrite !andb_true_r.
  - assert (H1 : includes (str b) "[" = false).
    { apply (guard_lacks_bracket k b G). exact Hr. }
    assert (H2 : includes (str b) ":" = false).
    { apply (guard_lacks_colon k b G). simpl in Hr. lia. }
    unfold guard at 1, seam, fits. rewrite !after_char, H1, H2, !(token_char k v).
    destruct k; simpl in Hr; try lia;
      cbn [is_pseudoClass andb orb negb]; now rewrite !andb_true_r.
  - assert (H2 : includes (str b) ":" = false).
    { apply (guard_lacks_colon k b G). exact Hr. }
    unfold guard at 1, seam, fits. rewrite !after_char, H2, !(token_char k v).
    destruct k; simpl in Hr; try lia;
      cbn [is_pseudoClass andb orb negb]; now rewrite !andb_true_r.
  - unfold guard at 1, seam, fits. rewrite after_dcolon, after_ends by exact G.
    destruct (includes (token (k, v)) "::"), (is_pseudoClass k),
      (ends_with ":" (str b)), more, (ends_with ":" (token (k, v)));
      reflexivity.
  - assert (N : k <> KPseudoElement).
    { intros ->. now apply Hn. }
    unfold guard at 1, seam, fits. rewrite after_dcolon by exact G.
    cbn [is_pseudoClass andb orb negb].
    destruct (includes (token (k, v)) "::"), (is_pseudoClass k),
      (ends_with ":" (str b)); reflexivity.
Qed.

(** A chain whose first guard passes succeeds exactly when its values fit. *)
Lemma chain_fitting (cs : list (kind * string)) (b : MyCssSelectorBuilder) :
  StronglySorted follows (kinds cs) ->
  match cs with
  | [] => True
  | (k, _) :: rest =>
      guard k b = true ->
      (fitting cs && seam k (match rest with [] => false | _ :: _ => true end) b
         = true -> exists b', chain cs b = Ok b') /\
      (fitting cs && seam k (match rest with [] => false | _ :: _ => true end) b
         = false -> exists e, chain cs b = Throw e)
  end.
Proof.
  revert b. induction cs as [|[k v] rest IH]; intros b HS; [exact I|].
  intros G. inversion HS as [|? ? HS' HF]; subst.
  assert (E := guard_true k v b G).
  destruct rest as [|[k' v'] rest'].
  - split.
    + intros _. exists (after k v b). simpl. now rewrite E.
    + unfold seam. rewrite andb_false_r. discriminate.
  - inversion HF as [|? ? Hf _]; subst.
    specialize (IH (after k v b) HS'). cbv beta iota in IH.
    assert (St := fits_step k k' v
                    (match rest' with [] => false | _ :: _ => true end) b Hf G).
    change (chain ((k, v) :: (k', v') :: rest') b)
      with (bind (call k v b) (chain ((k', v') :: rest'))).
    rewrite E. simpl bind.
    change (fitting ((k, v) :: (k', v') :: rest'))
      with (fits k v k' (match rest' with [] => false | _ :: _ => true end)
            && fitting ((k', v') :: rest')).
    destruct (guard k' (after k v b)) eqn:G'.
    + destruct (IH eq_refl) as [IH1 IH2].
      rewrite andb_true_l in St.
      split; intros H.
      * apply IH1. rewrite St.
        destruct (fits k v k' _), (seam k true b), (fitting ((k', v') :: rest'));
          try discriminate H; reflexivity.
      * apply IH2. rewrite St.
        destruct (fits k v k' _), (seam k true b), (fitting ((k', v') :: rest'));
          try discriminate H; reflexivity.
    + rewrite andb_false_l in St. split; intros H.
      * exfalso.
        destruct (fits k v k' _), (seam k true b); try discriminate St;
          simpl in H; try discriminate H;
          rewrite ?andb_false_r in H; discriminate H.
      * destruct (guard_false k' v' (after k v b) G') as [e He].
        exists e. simpl. now rewrite He.
Qed.

End Exact.

(** * The claims *)

(** C1, as stated, fails. The guards search the whole buffer, values
    included, so a chain in canonical order throws as soon as an earlier
    value contains a character a later guard looks for: after
    [element('a').attr('href^=https://x')] the buffer holds [':'], and a
    second [attr] raises the order error. *)
Lemma canonical_chain_with_marker_in_value_throws :
  ~ (forall (s : store) (cs : list (kind * string)),
        cs <> [] -> canonical (kinds cs) ->
        fst (facade_chain cs s) = Ok (tokens cs)).
Proof.
  intros H.
  assert (A : fst (facade_chain
                [(KElement, "a"); (KAttr, "href^=https://x"); (KAttr, "target")]
                initial_store)
              = Ok (tokens
                [(KElement, "a"); (KAttr, "href^=https://x"); (KAttr, "target")])).
  { apply H; [discriminate|].
    apply pairwise_canonical. repeat constructor; simpl; try lia; discriminate. }
  vm_compute in A. discriminate A.
Qed.

(** C1, amended: a chain that starts with a facade kind-constructor, whose
    kinds respect the canonical sequence, and in which every value but the
    last fits the call that follows it (before id: no ['#'], ['.'], ['['],
    [':'] in the value; before class: no ['['], [':']; before attr: no
    [':']; before pseudoClass and pseudoElement: no ['::'] in the token
    written for the value, and no [':'] at its end when the pseudoClass
    that follows is itself followed by a call), raises no error, and
    [stringify()] returns the concatenation of the tokens in call order.
    The condition is as weak as can be: a canonical chain with a value
    that does not fit throws. *)
Theorem facade_chain_canonical (s : store) (c : kind * string)
    (rest : list (kind * string)) :
  canonical (kinds (c :: rest)) ->
  (fitting (c :: rest) = true ->
     fst (facade_chain (c :: rest) s) = Ok (tokens (c :: rest))) /\
  (fitting (c :: rest) = false ->
     exists e, fst (facade_chain (c :: rest) s) = Throw e).
Proof.
  intros Hcan. rewrite facade_chain_result.
  assert (H := chain_fitting (c :: rest) new_MyCssSelectorBuilder
                 (canonical_pairwise _ Hcan)).
  destruct c as [k v]. cbv beta iota in H.
  assert (G : guard k new_MyCssSelectorBuilder = true) by now destruct k.
  destruct (H G) as [H1 H2]. clear H.
  assert (S : forall more, seam k more new_MyCssSelectorBuilder = true).
  { intros more. unfold seam. change (ends_with ":" (str new_MyCssSelectorBuilder))
      with false. now rewrite andb_false_r. }
  rewrite S, andb_true_r in H1, H2. split; intros F.
  - destruct (H1 F) as [b' Hb]. rewrite Hb.
    now rewrite (chain_str _ _ _ Hb).
  - destruct (H2 F) as [e He]. rewrite He. now exists e.
Qed.

Lemma facade_chain_canonical_witness :
  fst (facade_chain
         [(KElement, "a"); (KPseudoClass, "not(:hover)");
          (KPseudoClass, "focus"); (KPseudoElement, "after")] initial_store)
  = Ok "a:not(:hover):focus::after".
Proof.
  destruct (facade_chain_canonical initial_store (KElement, "a")
              [(KPseudoClass, "not(:hover)"); (KPseudoClass, "focus");
               (KPseudoElement, "after")]) as [H _].
  - apply pairwise_canonical. repeat constructor; simpl; try lia; discriminate.
  - apply H. reflexivity.
Defined.

(** C2: whenever every call of a sequence of mutator calls on one builder
    returns normally, the kinds of the calls are in the order element, id,
    class(es), attribute(s), pseudo-class(es), pseudo-element, and element,
    id and pseudo-element occur at most once. *)
Theorem successful_chain_canonical (cs : list (kind * string))
    (b b' : MyCssSelectorBuilder) :
  chain cs b = Ok b' -> canonical (kinds cs).
Proof. intros H. apply pairwise_canonical. exact (chain_pairwise cs b b' H). Qed.

Lemma successful_chain_canonical_witness :
  canonical [KElement; KId; KClass; KClass; KAttr; KPseudoClass; KPseudoElement].
Proof.
  apply (successful_chain_canonical
           [(KElement, "input"); (KId, "id"); (KClass, "a"); (KClass, "b");
            (KAttr, "type=text"); (KPseudoClass, "focus");
            (KPseudoElement, "selection")]
           new_MyCssSelectorBuilder
           {| str := "input#id.a.b[type=text]:focus::selection";
              hasElement := true |}).
  reflexivity.
Defined.

(** C3: [combine(l, c, r)] calls [l.stringify()], then [r.stringify()], and
    appends [a + ' ' + c + ' ' + b], for the two strings returned, to the
    facade's own [str]; it returns the facade, whatever the string [c]. For
    two distinct builders both buffers end up empty and the text appended
    is made of the two buffers as they were. From an empty facade buffer
    the documented example yields ["div#main + table#data"]. *)
Theorem combine_spec (s : store) (l r : ref) (c : string) :
  (exists a s1 b s2,
      stringify_at l s = (Ok a, s1) /\
      stringify_at r s1 = (Ok b, s2) /\
      combine l c r s =
        (Ok Facade,
         set_facade_str s2 (facade_str s2 ++ a ++ " " ++ c ++ " " ++ b))) /\
  (forall i j, l = Builder i -> r = Builder j -> i <> j ->
      let s' := snd (combine l c r s) in
      fst (combine l c r s) = Ok Facade /\
      facade_str s' =
        facade_str s ++ str (cells s i) ++ " " ++ c ++ " " ++ str (cells s j) /\
      str (cells s' i) = "" /\ str (cells s' j) = "" /\
      hasElement (cells s' i) = hasElement (cells s i) /\
      hasElement (cells s' j) = hasElement (cells s j)) /\
  (facade_str s = "" ->
      fst (combine_example s) = Ok "div#main + table#data").
Proof.
  split; [|split].
  - destruct l as [|i], r as [|j]; unfold combine, bindM; simpl;
      repeat eexists.
  - intros i j -> -> N. now apply combine_distinct.
  - apply combine_example_from_empty.
Qed.

Lemma combine_spec_witness :
  let s := snd (fluent [(KElement, "table"); (KId, "data")] Facade
             (snd (fluent [(KElement, "div"); (KId, "main")] Facade
                initial_store))) in
  facade_str (snd (combine (Builder 0) "+" (Builder 1) s))
    = "div#main + table#data" /\
  fst (combine_example initial_store) = Ok "div#main + table#data".
Proof.
  intros s. split.
  - destruct (combine_spec s (Builder 0) (Builder 1) "+") as (_ & H & _).
    destruct (H 0 1 eq_refl eq_refl) as (_ & E & _); [discriminate|].
    exact E.
  - destruct (combine_spec initial_store Facade Facade "") as (_ & _ & H).
    apply H. reflexivity.
Defined.

(** C4: [element(value)] throws the duplicate error, with its message, when
    the element flag is set; throws the order error when the flag is clear
    but the buffer is not empty; otherwise appends [value] as it is and
    sets the flag. Hence a second [element] later in the same chain throws
    the duplicate error. *)
Theorem element_spec (value : string) (this : MyCssSelectorBuilder) :
  (hasElement this = true ->
     element value this = Throw DuplicateSelectorError) /\
  (hasElement this = false -> str this <> "" ->
     element value this = Throw OrderError) /\
  (hasElement this = false -> str this = "" ->
     element value this = Ok {| str := str this ++ value; hasElement := true |}) /\
  DuplicateSelectorError =
    "Element, id and pseudo-element should not occur more then one time inside the selector" /\
  (forall b1 cs b2 value2,
     element value this = Ok b1 -> chain cs b1 = Ok b2 ->
     element value2 b2 = Throw DuplicateSelectorError).
Proof.
  repeat split.
  - unfold element. now intros ->.
  - unfold element. intros -> N. destruct (str this); [now elim N | reflexivity].
  - unfold element. now intros -> ->.
  - intros b1 cs b2 value2 H1 H2.
    assert (Hm : mark KElement b2).
    { apply (chain_mark KElement cs b1 b2); [|exact H2].
      exact (call_mark KElement value this b1 H1). }
    unfold element. unfold mark in Hm. now rewrite Hm.
Qed.

Lemma element_spec_witness :
  element "span" {| str := "div#main"; hasElement := true |}
  = Throw DuplicateSelectorError.
Proof.
  destruct (element_spec "div" new_MyCssSelectorBuilder) as (_ & _ & _ & _ & H).
  apply (H {| str := "div"; hasElement := true |} [(KId, "main")]);
    reflexivity.
Defined.

(** Kinds that come after id in the canonical sequence. *)
Lemma later_kind_mark (k : kind) (b : MyCssSelectorBuilder) :
  1 < rank k -> mark k b ->
  includes (str b) "." = true \/ includes (str b) "[" = true \/
  includes (str b) ":" = true \/ includes (str b) "::" = true.
Proof. destruct k; simpl; intros Hr Hm; try lia; auto. Qed.

(** C5, as stated, fails in its last part: an [id] that comes after a class
    call does fail, but when the buffer already holds ['#'] the duplicate
    check comes first, so [id('x').class('y').id('z')] throws the duplicate
    error and not the order error. *)
Lemma id_after_class_throws_duplicate :
  ~ (forall (cs : list (kind * string)) (k : kind) (w v : string)
            (b : MyCssSelectorBuilder),
        1 < rank k ->
        chain (cs ++ [(k, w)])%list new_MyCssSelectorBuilder = Ok b ->
        id v b = Throw OrderError).
Proof.
  intros H.
  specialize (H [(KId, "x")] KClass "y" "z" {| str := "#x.y"; hasElement := false |}).
  assert (E : id "z" {| str := "#x.y"; hasElement := false |}
              = Throw DuplicateSelectorError) by reflexivity.
  rewrite E in H.
  assert (A : @Throw MyCssSelectorBuilder DuplicateSelectorError = Throw OrderError).
  { apply H; [simpl; lia | reflexivity]. }
  injection A as A. now apply errors_differ.
Qed.

(** C5, amended: [id(value)] throws the duplicate error exactly when the
    buffer contains ['#']; otherwise it throws the order error exactly when
    the buffer contains ['.'], ['['] or [':']; otherwise it appends
    ['#' + value]. An [id] called after a successful class, attr,
    pseudoClass or pseudoElement call of the same chain always throws: the
    order error when the buffer holds no ['#'], the duplicate error when it
    does. *)
Theorem id_spec (value : string) (this : MyCssSelectorBuilder) :
  (includes (str this) "#" = true <->
     id value this = Throw DuplicateSelectorError) /\
  (includes (str this) "#" = false ->
     (includes (str this) "." = true \/ includes (str this) "[" = true \/
      includes (str this) ":" = true <->
      id value this = Throw OrderError)) /\
  (includes (str this) "#" = false -> includes (str this) "." = false ->
   includes (str this) "[" = false -> includes (str this) ":" = false ->
     id value this = Ok (set_str this (str this ++ "#" ++ value))) /\
  (forall k w b0 b1 cs,
     1 < rank k -> call k w b0 = Ok b1 -> chain cs b1 = Ok this ->
     id value this =
       Throw (if includes (str this) "#" then DuplicateSelectorError
              else OrderError)).
Proof.
  assert (D := errors_differ).
  split; [|split; [|split]].
  - unfold id. destruct (includes (str this) "#"); [now split|].
    split; [discriminate|].
    repeat match goal with
    | |- context [if ?c then _ else _] => destruct c
    end; intros [= E]; congruence.
  - intros H0. unfold id. rewrite H0. split.
    + intros [H | [H | H]]; rewrite H;
        repeat match goal with
        | |- context [if ?c then _ else _] => destruct c
        end; reflexivity.
    + intros H.
      destruct (includes (str this) "."); [auto|].
      destruct (includes (str this) "["); [auto|].
      destruct (includes (str this) ":") eqn:E; [auto|].
      rewrite (colon_dcolon _ E) in H. discriminate.
  - apply id_ok.
  - intros k w b0 b1 cs Hr H1 H2.
    assert (Hm : mark k this).
    { apply (chain_mark k cs b1 this); [|exact H2].
      exact (call_mark k w b0 b1 H1). }
    apply (later_kind_mark k this Hr) in Hm.
    unfold id. destruct (includes (str this) "#"); [reflexivity|].
    destruct Hm as [H | [H | [H | H]]];
      repeat match goal with
      | |- context [if ?c then _ else _] => destruct c eqn:?
      end; congruence.
Qed.

Lemma id_spec_witness :
  id "late" {| str := "div.wide:hover"; hasElement := true |} = Throw OrderError.
Proof.
  destruct (id_spec "late" {| str := "div.wide:hover"; hasElement := true |})
    as (_ & _ & _ & H).
  apply (H KClass "wide" {| str := "div"; hasElement := true |}
           {| str := "div.wide"; hasElement := true |}
           [(KPseudoClass, "hover")]); [simpl; lia | reflexivity | reflexivity].
Defined.

(** C6: [pseudoElement(value)] throws the duplicate error exactly when the
    buffer contains ['::'], and otherwise appends ['::' + value]; hence a
    second [pseudoElement] later in the same chain throws the duplicate
    error. *)
Theorem pseudoElement_spec (value : string) (this : MyCssSelectorBuilder) :
  (includes (str this) "::" = true <->
     pseudoElement value this = Throw DuplicateSelectorError) /\
  (includes (str this) "::" = false ->
     pseudoElement value this = Ok (set_str this (str this ++ "::" ++ value))) /\
  (forall b1 cs b2 value2,
     pseudoElement value this = Ok b1 -> chain cs b1 = Ok b2 ->
     pseudoElement value2 b2 = Throw DuplicateSelectorError).
Proof.
  split; [|split].
  - unfold pseudoElement. destruct (includes (str this) "::"); now split.
  - apply pseudoElement_ok.
  - intros b1 cs b2 value2 H1 H2.
    assert (Hm : mark KPseudoElement b2).
    { apply (chain_mark KPseudoElement cs b1 b2); [|exact H2].
      exact (call_mark KPseudoElement value this b1 H1). }
    unfold pseudoElement. unfold mark in Hm. now rewrite Hm.
Qed.

Lemma pseudoElement_spec_witness :
  pseudoElement "after" {| str := "::before"; hasElement := false |}
  = Throw DuplicateSelectorError.
Proof.
  destruct (pseudoElement_spec "before" new_MyCssSelectorBuilder) as (_ & _ & H).
  apply (H {| str := "::before"; hasElement := false |} []); reflexivity.
Defined.

(** C7: [stringify()] has no throwing path: in every state it returns the
    buffer and leaves the buffer empty, so that a second [stringify()] on
    the same object returns the empty string. *)
Theorem stringify_spec (this : MyCssSelectorBuilder) (s : store) (n : nat) :
  stringify this = (str this, {| str := ""; hasElement := hasElement this |}) /\
  fst (stringify (snd (stringify this))) = "" /\
  fst (stringify_at (Builder n) s) = Ok (str (cells s n)) /\
  str (cells (snd (stringify_at (Builder n) s)) n) = "" /\
  fst (stringify_at (Builder n) (snd (stringify_at (Builder n) s))) = Ok "".
Proof.
  repeat split; simpl; now rewrite ?Nat.eqb_refl.
Qed.

(** C8, as stated, fails for the pseudo-element half: [pseudoElement] does
    not touch the flag, which is still [false] after
    [new MyCssSelectorBuilder().pseudoElement('first-letter')]. *)
Lemma pseudoElement_leaves_flag_clear :
  ~ (forall (v : string) (b b' : MyCssSelectorBuilder),
        pseudoElement v b = Ok b' -> hasElement b' = true).
Proof.
  intros H.
  specialize (H "first-letter" new_MyCssSelectorBuilder
                {| str := "::first-letter"; hasElement := false |} eq_refl).
  discriminate H.
Qed.

(** C8, amended: the flag [hasElement] is true after any successful
    [element] call; every other mutator, [pseudoElement] included, and
    [stringify] leave it as it was. On a new builder it therefore tells
    whether an [element] call has been made, and nothing about
    pseudo-elements. *)
Theorem hasElement_tracks_element :
  (forall v b b', element v b = Ok b' -> hasElement b' = true) /\
  (forall k v b b',
     k <> KElement -> call k v b = Ok b' -> hasElement b' = hasElement b) /\
  (forall b, hasElement (snd (stringify b)) = hasElement b) /\
  (forall cs b',
     chain cs new_MyCssSelectorBuilder = Ok b' ->
     hasElement b' = existsb is_element (kinds cs)).
Proof.
  split; [|split; [|split]].
  - intros v b b' H. exact (call_mark KElement v b b' H).
  - intros k v b b' N H. destruct (call_Ok_inv _ _ _ _ H) as [_ ->].
    destruct k; simpl; auto using orb_false_r. now elim N.
  - reflexivity.
  - intros cs b' H. now rewrite (chain_hasElement _ _ _ H).
Qed.

Lemma hasElement_tracks_element_witness :
  hasElement {| str := "li::marker"; hasElement := true |} = true /\
  hasElement {| str := "::marker"; hasElement := false |} = false.
Proof.
  destruct hasElement_tracks_element as (_ & _ & _ & H).
  split.
  - apply (H [(KElement, "li"); (KPseudoElement, "marker")]). reflexivity.
  - apply (H [(KPseudoElement, "marker")]). reflexivity.
Defined.

(** C9: [stringify()] empties the buffer and keeps the element flag: on a
    builder on which [element] has succeeded, [stringify()] followed by
    another [element(value)] throws the duplicate error although the
    buffer is empty at that point. *)
Theorem stringify_keeps_element_flag (v1 v2 : string)
    (b b1 b2 : MyCssSelectorBuilder) (cs : list (kind * string)) :
  element v1 b = Ok b1 -> chain cs b1 = Ok b2 ->
  str (snd (stringify b2)) = "" /\
  hasElement (snd (stringify b2)) = true /\
  element v2 (snd (stringify b2)) = Throw DuplicateSelectorError.
Proof.
  intros H1 H2.
  assert (Hm : mark KElement b2).
  { apply (chain_mark KElement cs b1 b2); [|exact H2].
    exact (call_mark KElement v1 b b1 H1). }
  unfold mark in Hm. unfold element. simpl. now rewrite Hm.
Qed.

Lemma stringify_keeps_element_flag_witness :
  str (snd (stringify {| str := "div#main"; hasElement := true |})) = "" /\
  hasElement (snd (stringify {| str := "div#main"; hasElement := true |})) = true /\
  element "span" (snd (stringify {| str := "div#main"; hasElement := true |}))
  = Throw DuplicateSelectorError.
Proof.
  apply (stringify_keeps_element_flag "div" "span" new_MyCssSelectorBuilder
           {| str := "div"; hasElement := true |}
           {| str := "div#main"; hasElement := true |} [(KId, "main")]);
    reflexivity.
Defined.

(** C10: [new Rectangle(w, h)] has [width] equal to [w] and [height] equal
    to [h], and [getArea()] returns the product [w * h] and changes neither
    field. *)
Theorem Rectangle_spec (w h : float) :
  Rect.width (Rect.new_Rectangle w h) = w /\
  Rect.height (Rect.new_Rectangle w h) = h /\
  Rect.getArea (Rect.new_Rectangle w h) =
    (PrimFloat.mul w h, Rect.new_Rectangle w h).
Proof.
  repeat split. unfold Rect.getArea. simpl. now rewrite float_mul_comm.
Qed.

Example Rectangle_doc :
  fst (Rect.getArea (Rect.new_Rectangle 10 20)) = 200%float.
Proof. reflexivity. Qed.

(** * Further properties of the builder *)

(** ** The repeatable kinds *)

(** [class(value)] throws the order error exactly when the buffer contains
    ['['] or [':'], never the duplicate error, and otherwise appends
    ['.' + value]. A further [class] is accepted after it exactly when
    [value] itself contains neither ['['] nor [':']. *)
Theorem classfn_spec (value : string) (this : MyCssSelectorBuilder) :
  (includes (str this) "[" = true \/ includes (str this) ":" = true <->
     classfn value this = Throw OrderError) /\
  (includes (str this) "[" = false -> includes (str this) ":" = false ->
     classfn value this = Ok (set_str this (str this ++ "." ++ value))) /\
  classfn value this <> Throw DuplicateSelectorError /\
  (forall b' value2,
     classfn value this = Ok b' ->
     (includes value "[" = false /\ includes value ":" = false <->
      classfn value2 b' = Ok (set_str b' (str b' ++ "." ++ value2)))).
Proof.
  assert (D := errors_differ).
  split; [|split; [|split]].
  - unfold classfn. split.
    + intros [H | H]; rewrite H; [reflexivity|].
      now destruct (includes (str this) "[").
    + destruct (includes (str this) "["); [auto|].
      destruct (includes (str this) ":") eqn:E; [auto|].
      now rewrite (colon_dcolon _ E).
  - apply classfn_ok.
  - unfold classfn.
    repeat match goal with
    | |- context [if ?c then _ else _] => destruct c
    end; congruence.
  - intros b' value2 H.
    destruct (call_Ok_inv KClass value this b' H) as [Hs _].
    change (token (KClass, value)) with ("." ++ value) in Hs.
    assert (G : includes (str this) "[" = false /\ includes (str this) ":" = false).
    { unfold classfn in H.
      destruct (includes (str this) "["); [discriminate|].
      destruct (includes (str this) ":"); [discriminate | now split]. }
    destruct G as [G1 G2]. split.
    + intros [V1 V2]. apply classfn_ok; rewrite Hs, !includes_char_app, ?G1, ?G2, ?V1, ?V2;
        reflexivity.
    + intros H2. unfold classfn in H2. rewrite Hs, !includes_char_app, G1, G2 in H2.
      change (includes "." "[") with false in H2.
      change (includes "." ":") with false in H2.
      simpl orb in H2.
      destruct (includes value "["); [discriminate|].
      destruct (includes value ":"); [discriminate | now split].
Qed.

Lemma classfn_spec_witness :
  classfn "editable" {| str := "#main.container"; hasElement := false |}
  = Ok {| str := "#main.container.editable"; hasElement := false |}.
Proof.
  destruct (classfn_spec "container" {| str := "#main"; hasElement := false |})
    as (_ & _ & _ & H).
  apply (H {| str := "#main.container"; hasElement := false |} "editable");
    [reflexivity | split; reflexivity].
Defined.

(** [attr(value)] throws the order error exactly when the buffer contains
    [':'], never the duplicate error, and otherwise appends
    ['[' + value + ']']. A further [attr] is accepted after it exactly when
    [value] itself contains no [':']. *)
Theorem attr_spec (value : string) (this : MyCssSelectorBuilder) :
  (includes (str this) ":" = true <-> attr value this = Throw OrderError) /\
  (includes (str this) ":" = false ->
     attr value this = Ok (set_str this (str this ++ "[" ++ value ++ "]"))) /\
  attr value this <> Throw DuplicateSelectorError /\
  (forall b' value2,
     attr value this = Ok b' ->
     (includes value ":" = false <->
      attr value2 b' = Ok (set_str b' (str b' ++ "[" ++ value2 ++ "]")))).
Proof.
  assert (D := errors_differ).
  split; [|split; [|split]].
  - unfold attr. split.
    + now intros ->.
    + destruct (includes (str this) ":") eqn:E; [auto|].
      now rewrite (colon_dcolon _ E).
  - apply attr_ok.
  - unfold attr. destruct (_ || _); congruence.
  - intros b' value2 H.
    destruct (call_Ok_inv KAttr value this b' H) as [Hs _].
    change (token (KAttr, value)) with ("[" ++ value ++ "]") in Hs.
    assert (G : includes (str this) ":" = false).
    { unfold attr in H. now destruct (includes (str this) ":"). }
    split.
    + intros V. apply attr_ok. rewrite Hs, !includes_char_app, G, V. reflexivity.
    + intros H2. unfold attr in H2. rewrite Hs, !includes_char_app, G in H2.
      change (includes "[" ":") with false in H2.
      change (includes "]" ":") with false in H2.
      rewrite orb_false_r in H2. simpl orb in H2.
      now destruct (includes value ":").
Qed.

Lemma attr_spec_witness :
  attr "target" {| str := "a[href]"; hasElement := true |}
  = Ok {| str := "a[href][target]"; hasElement := true |}.
Proof.
  destruct (attr_spec "href" {| str := "a"; hasElement := true |})
    as (_ & _ & _ & H).
  apply (H {| str := "a[href]"; hasElement := true |} "target"); reflexivity.
Defined.

(** [pseudoClass(value)] throws the order error exactly when the buffer
    contains ['::'], never the duplicate error, and otherwise appends
    [':' + value]. The two colons may also come from two tokens: after a
    successful [pseudoClass(value)] a further [pseudoClass] is accepted
    exactly when the buffer did not end with [':'] and [value] neither
    starts with [':'] nor contains ['::']; an empty value followed by
    another pseudo-class therefore closes the fragment. *)
Theorem pseudoClass_spec (value : string) (this : MyCssSelectorBuilder) :
  (includes (str this) "::" = true <->
     pseudoClass value this = Throw OrderError) /\
  (includes (str this) "::" = false ->
     pseudoClass value this = Ok (set_str this (str this ++ ":" ++ value))) /\
  pseudoClass value this <> Throw DuplicateSelectorError /\
  (forall b' value2,
     pseudoClass value this = Ok b' ->
     (ends_with ":" (str this) = false /\ starts_with ":" value = false /\
      includes value "::" = false <->
      pseudoClass value2 b' = Ok (set_str b' (str b' ++ ":" ++ value2)))).
Proof.
  assert (D := errors_differ).
  split; [|split; [|split]].
  - unfold pseudoClass. destruct (includes (str this) "::"); now split.
  - apply pseudoClass_ok.
  - unfold pseudoClass. destruct (includes (str this) "::"); congruence.
  - intros b' value2 H.
    destruct (call_Ok_inv KPseudoClass value this b' H) as [Hs _].
    change (token (KPseudoClass, value)) with (":" ++ value) in Hs.
    assert (G : includes (str this) "::" = false).
    { unfold pseudoClass in H. now destruct (includes (str this) "::"). }
    assert (E : includes (str b') "::" =
                ends_with ":" (str this) || starts_with ":" value
                || includes value "::").
    { rewrite Hs, includes_dcolon_app, G, (includes_dcolon_app ":" value).
      change (starts_with ":" (":" ++ value)) with true.
      change (includes ":" "::") with false.
      change (ends_with ":" ":") with true.
      destruct (ends_with ":" (str this)), (starts_with ":" value),
        (includes value "::"); reflexivity. }
    split.
    + intros (V1 & V2 & V3). apply pseudoClass_ok. now rewrite E, V1, V2, V3.
    + intros H2. unfold pseudoClass in H2. rewrite E in H2.
      destruct (ends_with ":" (str this)); [discriminate|].
      destruct (starts_with ":" value); [discriminate|].
      destruct (includes value "::"); [discriminate | now repeat split].
Qed.

Lemma pseudoClass_spec_witness :
  pseudoClass "focus" {| str := "a:hover"; hasElement := true |}
  = Ok {| str := "a:hover:focus"; hasElement := true |}.
Proof.
  destruct (pseudoClass_spec "hover" {| str := "a"; hasElement := true |})
    as (_ & _ & _ & H).
  apply (H {| str := "a:hover"; hasElement := true |} "focus");
    [reflexivity | repeat split; reflexivity].
Defined.

(** ** Validation looks at the builder only *)

(** Whether a call throws, and which error, depends on the state of the
    builder alone: the argument is never inspected. *)
Theorem call_ignores_value (k : kind) (v v' e : string)
    (b : MyCssSelectorBuilder) :
  call k v b = Throw e <-> call k v' b = Throw e.
Proof.
  destruct k; simpl;
    unfold element, id, classfn, attr, pseudoClass, pseudoElement;
    repeat match goal with
    | |- context [if ?c then _ else _] => destruct c
    end; split; intros H; (exact H || discriminate H).
Qed.

Lemma call_throw_known (k : kind) (v e : string) (b : MyCssSelectorBuilder) :
  call k v b = Throw e -> e = DuplicateSelectorError \/ e = OrderError.
Proof.
  destruct k; simpl;
    unfold element, id, classfn, attr, pseudoClass, pseudoElement;
    repeat match goal with
    | |- context [if ?c then _ else _] => destruct c
    end; intros [= <-]; auto.
Qed.

(** The only errors a chain of mutator calls can end with are the two
    messages of the source. *)
Theorem chain_throws_known_error (cs : list (kind * string)) (e : string)
    (b : MyCssSelectorBuilder) :
  chain cs b = Throw e -> e = DuplicateSelectorError \/ e = OrderError.
Proof.
  revert b. induction cs as [|[k v] rest IH]; intros b H; [discriminate|].
  simpl in H. destruct (call k v b) as [b1|e1] eqn:E.
  - exact (IH b1 H).
  - injection H as <-. exact (call_throw_known k v e1 b E).
Qed.

Lemma chain_throws_known_error_witness :
  OrderError = DuplicateSelectorError \/ OrderError = OrderError.
Proof.
  apply (chain_throws_known_error
           [(KClass, "a"); (KAttr, "b"); (KClass, "c")] OrderError
           new_MyCssSelectorBuilder).
  reflexivity.
Defined.

(** ** What a successful chain has done *)

(** Whatever the values, a chain that returns normally has appended to the
    buffer exactly the tokens of its calls, verbatim and in call order, and
    has set the element flag exactly if it contains an [element] call. *)
Theorem chain_appends_tokens (cs : list (kind * string))
    (b b' : MyCssSelectorBuilder) :
  chain cs b = Ok b' ->
  str b' = str b ++ tokens cs /\
  hasElement b' = hasElement b || existsb is_element (kinds cs).
Proof.
  intros H. split; [exact (chain_str cs b b' H) | exact (chain_hasElement cs b b' H)].
Qed.

Lemma chain_appends_tokens_witness :
  str {| str := "li.a:b::c"; hasElement := true |} =
    "li" ++ tokens [(KClass, "a"); (KPseudoClass, "b"); (KPseudoElement, "c")] /\
  hasElement {| str := "li.a:b::c"; hasElement := true |} =
    true || existsb is_element [KClass; KPseudoClass; KPseudoElement].
Proof.
  apply (chain_appends_tokens
           [(KClass, "a"); (KPseudoClass, "b"); (KPseudoElement, "c")]
           {| str := "li"; hasElement := true |}
           {| str := "li.a:b::c"; hasElement := true |}).
  reflexivity.
Defined.

(** ** Rejection lasts until [stringify] *)

Lemma call_throw_persists (k : kind) (v v' e t : string)
    (b b' : MyCssSelectorBuilder) :
  call k v b = Throw e ->
  str b' = str b ++ t ->
  (hasElement b = true -> hasElement b' = true) ->
  exists e', call k v' b' = Throw e'.
Proof.
  intros H Hs He.
  destruct k; simpl in *;
    unfold element, id, classfn, attr, pseudoClass, pseudoElement in *.
  - destruct (hasElement b).
    + rewrite (He eq_refl). first [now exists DuplicateSelectorError | now exists OrderError].
    + destruct (str b) as [|a r] eqn:E; [discriminate|].
      rewrite Hs. simpl. destruct (hasElement b'); first [now exists DuplicateSelectorError | now exists OrderError].
  - repeat match type of H with
    | context [if includes (str b) ?p then _ else _] =>
        let E := fresh "E" in
        destruct (includes (str b) p) eqn:E;
        [apply (includes_app_l _ t) in E; rewrite <- Hs in E |]
    end; try discriminate;
    repeat match goal with
    | |- context [if ?c then _ else _] => destruct c eqn:?
    end; first [now exists DuplicateSelectorError | now exists OrderError | congruence].
  - repeat match type of H with
    | context [if includes (str b) ?p then _ else _] =>
        let E := fresh "E" in
        destruct (includes (str b) p) eqn:E;
        [apply (includes_app_l _ t) in E; rewrite <- Hs in E |]
    end; try discriminate;
    repeat match goal with
    | |- context [if ?c then _ else _] => destruct c eqn:?
    end; first [now exists DuplicateSelectorError | now exists OrderError | congruence].
  - destruct (includes (str b) ":") eqn:E1.
    + apply (includes_app_l _ t) in E1. rewrite <- Hs in E1. rewrite E1.
      first [now exists DuplicateSelectorError | now exists OrderError].
    + destruct (includes (str b) "::") eqn:E2; [|discriminate].
      apply (includes_app_l _ t) in E2. rewrite <- Hs in E2. rewrite E2.
      rewrite orb_true_r. first [now exists DuplicateSelectorError | now exists OrderError].
  - destruct (includes (str b) "::") eqn:E; [|discriminate].
    apply (includes_app_l _ t) in E. rewrite <- Hs in E. rewrite E. first [now exists DuplicateSelectorError | now exists OrderError].
  - destruct (includes (str b) "::") eqn:E; [|discriminate].
    apply (includes_app_l _ t) in E. rewrite <- Hs in E. rewrite E. first [now exists DuplicateSelectorError | now exists OrderError].
Qed.

(** A call that the builder rejects stays rejected, with any argument,
    after every further successful mutator call on that builder: nothing
    but [stringify] lifts a guard. *)
Theorem rejected_stays_rejected (k : kind) (v v' e : string)
    (cs : list (kind * string)) (b b' : MyCssSelectorBuilder) :
  call k v b = Throw e -> chain cs b = Ok b' ->
  exists e', call k v' b' = Throw e'.
Proof.
  intros H Hc.
  apply (call_throw_persists k v v' e (tokens cs) b b' H).
  - exact (chain_str cs b b' Hc).
  - intros Ht. rewrite (chain_hasElement cs b b' Hc), Ht. reflexivity.
Qed.

Lemma rejected_stays_rejected_witness :
  exists e', call KClass "late"
               {| str := "a[href]:hover::after"; hasElement := true |}
             = Throw e'.
Proof.
  apply (rejected_stays_rejected KClass "early" "late" OrderError
           [(KPseudoClass, "hover"); (KPseudoElement, "after")]
           {| str := "a[href]"; hasElement := true |}); reflexivity.
Defined.

(** [stringify()] lifts every guard but the element flag: on the builder it
    leaves behind, a call of any kind other than element is accepted and
    starts a new buffer with its token (so a second id or pseudo-element is
    accepted there), while [element] is accepted only if no [element] call
    was ever made on the object. *)
Theorem stringify_reopens (k : kind) (v : string) (b : MyCssSelectorBuilder) :
  call k v (snd (stringify b)) =
  if is_element k && hasElement b then Throw DuplicateSelectorError
  else Ok {| str := token (k, v); hasElement := hasElement b || is_element k |}.
Proof.
  destruct b as [s h]. destruct k, h; reflexivity.
Qed.

(** On a builder that has gone through a non-empty successful chain since
    it was created, [element] always throws: the duplicate error if the
    chain contains an [element] call, the order error if it does not;
    element can only be the first call. *)
Theorem element_only_first (c : kind * string) (rest : list (kind * string))
    (v : string) (b : MyCssSelectorBuilder) :
  chain (c :: rest) new_MyCssSelectorBuilder = Ok b ->
  element v b =
  Throw (if existsb is_element (kinds (c :: rest))
         then DuplicateSelectorError else OrderError).
Proof.
  intros H. assert (He := chain_hasElement _ _ _ H).
  change (hasElement new_MyCssSelectorBuilder) with false in He.
  rewrite orb_false_l in He. unfold element. rewrite He.
  destruct (existsb is_element (kinds (c :: rest))) eqn:E; [reflexivity|].
  destruct c as [k v0]. simpl in H.
  destruct (call k v0 new_MyCssSelectorBuilder) as [b1|] eqn:E1; [|discriminate].
  assert (Hm : mark k b).
  { exact (chain_mark k rest b1 b (call_mark _ _ _ _ E1) H). }
  destruct (mark_truthy k b Hm) as [Ht | Ht]; [congruence|].
  now rewrite Ht.
Qed.

Lemma element_only_first_witness :
  element "div" {| str := "#main.wide"; hasElement := false |}
  = Throw OrderError.
Proof.
  apply (element_only_first (KId, "main") [(KClass, "wide")] "div").
  reflexivity.
Defined.

(** * Further properties of the facade *)

(** ** Chains on the store *)

(** When a call of a chain throws, the calls before it have already
    written their tokens: the builder is left holding the buffer of the
    successful prefix, every other object is untouched, and the calls
    after the throwing one are not made. *)
Theorem fluent_failure_keeps_prefix (cs1 cs2 : list (kind * string))
    (k : kind) (v e : string) (n : nat) (s : store)
    (b1 : MyCssSelectorBuilder) :
  chain cs1 (cells s n) = Ok b1 -> call k v b1 = Throw e ->
  let out := fluent (cs1 ++ (k, v) :: cs2)%list (Builder n) s in
  fst out = Throw e /\
  cells (snd out) n = b1 /\
  str b1 = str (cells s n) ++ tokens cs1 /\
  (forall m, m <> n -> cells (snd out) m = cells s m) /\
  facade_str (snd out) = facade_str s.
Proof.
  intros H1 H2 out. subst out.
  assert (Hs := chain_str _ _ _ H1).
  revert s H1 Hs. induction cs1 as [|[k1 v1] rest IH]; intros s H1 Hs.
  - injection H1 as <-.
    change (fluent (([] ++ (k, v) :: cs2)%list) (Builder n) s)
      with (bindM (builder_method k v n) (fluent cs2) s).
    unfold bindM, builder_method. rewrite H2. now repeat split.
  - change (fluent (((k1, v1) :: rest) ++ (k, v) :: cs2)%list (Builder n) s)
      with (bindM (builder_method k1 v1 n)
                  (fluent (rest ++ (k, v) :: cs2)%list) s).
    unfold bindM, builder_method. simpl in H1.
    destruct (call k1 v1 (cells s n)) as [b0|] eqn:E; [|discriminate].
    destruct (IH (set_cell s n b0)) as (F1 & F2 & _ & F4 & F5).
    { now rewrite cells_set_cell_eq. }
    { rewrite cells_set_cell_eq. now apply chain_str. }
    repeat split; auto.
    intros m Hm. rewrite (F4 m Hm). now apply cells_set_cell_neq.
Qed.

Lemma fluent_failure_keeps_prefix_witness :
  let s := snd (fluent [(KElement, "a")] Facade initial_store) in
  let out := fluent [(KAttr, "href"); (KPseudoClass, "hover");
                     (KClass, "late"); (KPseudoElement, "after")]
               (Builder 0) s in
  fst out = Throw OrderError /\
  cells (snd out) 0 = {| str := "a[href]:hover"; hasElement := true |}.
Proof.
  intros s out.
  destruct (fluent_failure_keeps_prefix
              [(KAttr, "href"); (KPseudoClass, "hover")]
              [(KPseudoElement, "after")] KClass "late" OrderError 0 s
              {| str := "a[href]:hover"; hasElement := true |}
              eq_refl eq_refl) as (H1 & H2 & _).
  split; [exact H1 | exact H2].
Defined.

(** A chain started on the facade works on an object of its own: the
    builder it returns is the one just created, and whether the chain
    returns or throws, no object that existed before and not the facade's
    own buffer is changed. *)
Theorem facade_chain_isolated (c : kind * string) (rest : list (kind * string))
    (s : store) :
  let out := fluent (c :: rest) Facade s in
  (forall r, fst out = Ok r -> r = Builder (next s)) /\
  (forall m, m <> next s -> cells (snd out) m = cells s m) /\
  facade_str (snd out) = facade_str s /\
  next (snd out) = S (next s).
Proof.
  intros out. subst out. rewrite fluent_facade.
  destruct (fluent_chain_result (c :: rest) (next s) (snd (new_builder s)))
    as (H1 & H2 & H3 & H4).
  repeat split; auto.
  - intros r Hr.
    destruct (chain (c :: rest) (cells (snd (new_builder s)) (next s))).
    + destruct H1 as [H1 _]. congruence.
    + congruence.
  - intros m Hm. rewrite (H2 m Hm). simpl.
    apply Nat.eqb_neq in Hm. now rewrite Hm.
Qed.

Lemma facade_chain_isolated_witness :
  let s := snd (fluent [(KElement, "div"); (KId, "main")] Facade initial_store) in
  cells (snd (fluent [(KId, "x"); (KId, "y")] Facade s)) 0
  = {| str := "div#main"; hasElement := true |}.
Proof.
  intros s.
  destruct (facade_chain_isolated (KId, "x") [(KId, "y")] s) as (_ & H & _).
  apply (H 0). discriminate.
Defined.

Lemma forallb_removelast (A : Type) (f : A -> bool) (l : list A) :
  forallb f l = true -> forallb f (removelast l) = true.
Proof.
  induction l as [|a l IH]; [reflexivity|].
  intros H. simpl in H. apply andb_prop in H. destruct H as [Ha Hl].
  destruct l as [|a' l']; [reflexivity|].
  change (removelast (a :: a' :: l')) with (a :: removelast (a' :: l')).
  simpl forallb. rewrite Ha. exact (IH Hl).
Qed.

(** With values free of marker characters, a chain started on the facade
    is accepted, through to [stringify()], exactly when its kinds are in
    canonical order: no canonical chain is refused and no other chain is
    let through. *)
Theorem facade_accepts_exactly_canonical (c : kind * string)
    (rest : list (kind * string)) (s : store) :
  forallb clean (c :: rest) = true ->
  ((exists r, fst (facade_chain (c :: rest) s) = Ok r) <->
   canonical (kinds (c :: rest))).
Proof.
  intros Hc. rewrite facade_chain_result. split.
  - intros [r Hr].
    destruct (chain (c :: rest) new_MyCssSelectorBuilder) as [b|e] eqn:E;
      [|discriminate].
    apply pairwise_canonical. exact (chain_pairwise _ _ _ E).
  - intros Hcan.
    destruct (chain_succeeds (c :: rest) new_MyCssSelectorBuilder)
      as (b' & Hch & _).
    + now apply canonical_pairwise.
    + now apply forallb_removelast.
    + destruct c as [k v]. apply (admits_mono KElement); [simpl; lia|].
      now split.
    + rewrite Hch. now eexists.
Qed.

Lemma facade_accepts_exactly_canonical_witness :
  canonical [KId; KClass; KPseudoElement].
Proof.
  destruct (facade_accepts_exactly_canonical (KId, "a")
              [(KClass, "b"); (KPseudoElement, "c")] initial_store eq_refl)
    as [H _].
  apply H. exists "#a.b::c". reflexivity.
Defined.

(** ** combine *)

Lemma combine_frame (s : store) (i j m : nat) (c : string) :
  m <> i -> m <> j ->
  cells (snd (combine (Builder i) c (Builder j) s)) m = cells s m.
Proof.
  intros Hi Hj. unfold combine, bindM. simpl.
  apply Nat.eqb_neq in Hi, Hj. now rewrite Hi, Hj.
Qed.

(** Two [combine] calls with no [stringify()] between them pile up on the
    facade: the [stringify()] that follows returns the text the facade
    held before, then the first combined selector, then the second, with
    nothing in between. *)
Theorem combine_accumulates (s : store) (i1 j1 i2 j2 : nat) (c1 c2 : string) :
  i1 <> j1 -> i2 <> j2 -> i2 <> i1 -> i2 <> j1 -> j2 <> i1 -> j2 <> j1 ->
  fst ((x <- combine (Builder i1) c1 (Builder j1) ;;
        y <- combine (Builder i2) c2 (Builder j2) ;;
        stringify_at y) s)
  = Ok (facade_str s
        ++ (str (cells s i1) ++ " " ++ c1 ++ " " ++ str (cells s j1))
        ++ (str (cells s i2) ++ " " ++ c2 ++ " " ++ str (cells s j2))).
Proof.
  intros N1 N2 N3 N4 N5 N6. unfold bindM.
  destruct (combine_distinct s i1 j1 c1 N1) as (R1 & F1 & _).
  assert (C1 := combine_frame s i1 j1 i2 c1 N3 N4).
  assert (C2 := combine_frame s i1 j1 j2 c1 N5 N6).
  destruct (combine (Builder i1) c1 (Builder j1) s) as [r1 s1].
  simpl in R1, F1, C1, C2. rewrite R1.
  destruct (combine_distinct s1 i2 j2 c2 N2) as (R2 & F2 & _).
  destruct (combine (Builder i2) c2 (Builder j2) s1) as [r2 s2].
  simpl in R2, F2. rewrite R2. simpl.
  rewrite F2, F1, C1, C2. now rewrite append_assoc.
Qed.

Lemma combine_accumulates_witness :
  let s := snd (fluent [(KElement, "d")] Facade
           (snd (fluent [(KElement, "c")] Facade
           (snd (fluent [(KElement, "b")] Facade
           (snd (fluent [(KElement, "a")] Facade initial_store))))))) in
  fst ((x <- combine (Builder 0) ">" (Builder 1) ;;
        y <- combine (Builder 2) "~" (Builder 3) ;;
        stringify_at y) s)
  = Ok "a > bc ~ d".
Proof.
  intros s.
  apply (combine_accumulates s 0 1 2 3 ">" "~"); discriminate.
Defined.

(** [combine] on two distinct builders followed by [stringify()] on its
    result hands out the facade's earlier text followed by the combined
    selector and leaves nothing behind: the facade's buffer and both
    operands are empty, and a second [stringify()] returns the empty
    string. *)
Theorem combine_then_stringify (s : store) (i j : nat) (c : string) :
  i <> j ->
  let out := (x <- combine (Builder i) c (Builder j) ;; stringify_at x) s in
  fst out =
    Ok (facade_str s ++ str (cells s i) ++ " " ++ c ++ " " ++ str (cells s j)) /\
  facade_str (snd out) = "" /\
  str (cells (snd out) i) = "" /\ str (cells (snd out) j) = "" /\
  fst (stringify_at Facade (snd out)) = Ok "".
Proof.
  intros N out. subst out. unfold bindM.
  destruct (combine_distinct s i j c N) as (R & F & Ci & Cj & _).
  destruct (combine (Builder i) c (Builder j) s) as [r s1].
  simpl in R, F, Ci, Cj. rewrite R. simpl. now rewrite F, Ci, Cj.
Qed.

Lemma combine_then_stringify_witness :
  let s := snd (fluent [(KElement, "td")] Facade
           (snd (fluent [(KElement, "tr")] Facade initial_store))) in
  fst ((x <- combine (Builder 0) ">" (Builder 1) ;; stringify_at x) s)
  = Ok "tr > td".
Proof.
  intros s.
  destruct (combine_then_stringify s 0 1 ">") as (H & _); [discriminate|].
  exact H.
Defined.

(** Operands that alias. When the right operand is the facade itself (the
    result of an inner [combine]), the facade's text becomes the right part
    and is not kept in front; when the left operand is the facade, its text
    is the left part; when both operands are the same builder, the right
    part is empty, because the first [stringify()] has emptied it. *)
Theorem combine_aliased_operands (s : store) (i : nat) (c : string) :
  facade_str (snd (combine (Builder i) c Facade s))
    = str (cells s i) ++ " " ++ c ++ " " ++ facade_str s /\
  facade_str (snd (combine Facade c (Builder i) s))
    = facade_str s ++ " " ++ c ++ " " ++ str (cells s i) /\
  facade_str (snd (combine (Builder i) c (Builder i) s))
    = facade_str s ++ str (cells s i) ++ " " ++ c ++ " " /\
  facade_str (snd (combine Facade c Facade s))
    = facade_str s ++ " " ++ c ++ " ".
Proof.
  unfold combine, bindM. simpl. rewrite Nat.eqb_refl. simpl.
  repeat split; reflexivity.
Qed.

(** * A further property of Rectangle *)

(** The area does not depend on which side is called the width:
    [new Rectangle(w, h)] and [new Rectangle(h, w)] have the same area,
    for all numbers, infinities and NaN included. *)
Theorem Rectangle_area_symmetric (w h : float) :
  fst (Rect.getArea (Rect.new_Rectangle w h)) =
  fst (Rect.getArea (Rect.new_Rectangle h w)).
Proof. unfold Rect.getArea. simpl. apply float_mul_comm. Qed.
